(** * seabird_processing.batch: the [Batch] pipeline of SBE commands

    A shallow embedding of [src/seabird_processing/batch.py] and the
    properties of its two methods, [get_batch_config_str] (render) and
    [__call__] (run).

    Python objects live in a store: the [Batch] instance, the collection its
    [stages] attribute refers to (a list, or a one-shot iterator), the files of
    the temporary directory and the buffers of the open file objects.  Every
    call that leaves the module (a stage method, an operating-system
    primitive, the child process) is recorded in a log, so that "is invoked",
    "is invoked once" and "is not invoked" are statements about the log.

    What is taken from outside the module, and how:
    - a stage method is a function of its arguments that returns a text or
      raises; it does not touch the store;
    - [pathlib.Path] follows the POSIX rules;
    - leaving [with NamedTemporaryFile(...)] does what [tempfile] does: it
      closes the file object and then unlinks the file, so that the unlink is
      not reached when closing the file object raises;
    - the child process reads the store and answers with an exit status, or
      cannot be started. *)

From Stdlib Require Import ZArith String Ascii List Lia.
From stdpp Require Import base gmap strings list fin_maps.
Import ListNotations.
Local Open Scope string_scope.
Local Open Scope list_scope.

(** ** Text: [str.split], [str.join] and [pathlib.Path.name] *)

Definition newline : ascii := "010"%char.
Definition slash : ascii := "/"%char.

(** The separator of [join]: the newline as a one-character string. *)
Definition nl : string := String newline EmptyString.

(** [s.split(sep)] for a one-character separator: the pieces between the
    separators, empty pieces included; never the empty list. *)
Fixpoint split_on (sep : ascii) (s : string) : list string :=
  match s with
  | EmptyString => [EmptyString]
  | String c rest =>
      if Ascii.eqb c sep then EmptyString :: split_on sep rest
      else match split_on sep rest with
           | [] => [String c EmptyString]
           | piece :: pieces => String c piece :: pieces
           end
  end.

(** [sep.join(items)] is [String.concat sep items] of the Standard Library. *)
Definition join (sep : string) (items : list string) : string :=
  String.concat sep items.

(** The lines of a text: what is between its newline characters. *)
Definition lines (text : string) : list string := split_on newline text.

(** Does the character occur in the string? *)
Fixpoint occurs (c : ascii) (s : string) : bool :=
  match s with
  | EmptyString => false
  | String d rest => Ascii.eqb d c || occurs c rest
  end.

(** The components that [pathlib] keeps of a POSIX path: the pieces between
    slashes that are neither empty nor ["."] (the root is kept apart and is
    never the name). *)
Definition kept_component (x : string) : bool :=
  negb (String.eqb x "") && negb (String.eqb x ".").

Definition path_tail (path : string) : list string :=
  List.filter kept_component (split_on slash path).

(** [Path(path).name]: the final component, [""] when there is none. *)
Definition Path_name (path : string) : string :=
  List.last (path_tail path) "".

(** ** Exceptions and outcomes *)

Inductive exception : Type :=
| StageError (what : string)
| TypeError (what : string)
| OSError (what : string)
| FileExistsError
| FileNotFoundError (what : string)
| CalledProcessError (returncode : Z) (cmd : list string).

Inductive outcome (A : Type) : Type :=
| Return (a : A)
| Raise (e : exception).
Arguments Return {A} a.
Arguments Raise {A} e.

(** ** Stage descriptors

    [seabird_processing.configs._SBEConfig] is consumed through two methods
    only.  A stage is any pair of them; each may raise.  (An item that is no
    stage descriptor at all is a stage whose methods raise.) *)

Record _SBEConfig : Type := {
  get_exec_str : string -> bool -> outcome string;
  output_file_path : string -> outcome string
}.

(** ** The store *)

(** What an address holds.  [ListObj] is a collection that hands out a new
    iterator each time it is iterated: a list, and just as well a tuple or
    any other collection of that kind, with its items in the order the
    iteration gives them.  [IterObj] is a one-shot iterator or a generator,
    with what it has left to give.  [BatchObj] is an instance of [Batch];
    the class defines no [__iter__], so an instance cannot be iterated. *)
Inductive object : Type :=
| ListObj (items : list _SBEConfig)
| IterObj (remaining : list _SBEConfig)
| BatchObj (stages : nat).

Inductive process_result : Type :=
| Exited (returncode : Z)
| NotStarted (e : exception).

(** What the log records: the two stage methods called on stage number [i]
    with what they answered, and what happened to the temporary file and to
    the child process ([config] is what the file named by the second word of
    the command held when the child was started). *)
Inductive event : Type :=
| EExec (i : nat) (input : string) (batch_mode : bool) (r : outcome string)
| EOut (i : nat) (input : string) (r : outcome string)
| ECreate (name : string)
| EWrite (name text : string) (r : option exception)
| EFlush (name : string) (r : option exception)
| ESpawn (cmd : list string) (config : option string) (r : process_result)
| EUnlink (name : string).

(** Objects by address, files of the temporary directory by name with what
    has reached them, open file objects by name with what they still buffer,
    and the log, oldest event first. *)
Record world : Type := World {
  heap : gmap nat object;
  tmpdir : gmap string string;
  buffers : gmap string string;
  log : list event
}.

Definition set_heap (h : gmap nat object) (w : world) : world :=
  World h (tmpdir w) (buffers w) (log w).
Definition set_tmpdir (t : gmap string string) (w : world) : world :=
  World (heap w) t (buffers w) (log w).
Definition set_buffers (b : gmap string string) (w : world) : world :=
  World (heap w) (tmpdir w) b (log w).
Definition emit (ev : event) (w : world) : world :=
  World (heap w) (tmpdir w) (buffers w) (log w ++ [ev]).

(** ** Computations: state and exceptions *)

Definition M (A : Type) : Type := world -> outcome A * world.

Definition ret {A} (a : A) : M A := fun w => (Return a, w).
Definition raise {A} (e : exception) : M A := fun w => (Raise e, w).
Definition bind {A B} (m : M A) (k : A -> M B) : M B :=
  fun w => match m w with
           | (Return a, w1) => k a w1
           | (Raise e, w1) => (Raise e, w1)
           end.
Definition modify (f : world -> world) : M unit := fun w => (Return tt, f w).

Notation "x <- m ;; k" := (bind m (fun x => k))
  (at level 100, m at next level, right associativity).
Notation "m ;;; k" := (bind m (fun _ => k))
  (at level 100, right associativity).

(** [try: body finally: cleanup]: the cleanup runs on both exits; what it
    raises replaces what the body raised. *)
Definition try_finally {A} (body : M A) (cleanup : M unit) : M A :=
  fun w => match body w with
           | (r, w1) => match cleanup w1 with
                        | (Return _, w2) => (r, w2)
                        | (Raise e, w2) => (Raise e, w2)
                        end
           end.

(** ** Calls of the stage methods, logged *)

Definition call_get_exec_str (i : nat) (config : _SBEConfig)
    (input : string) (batch_mode : bool) : M string :=
  fun w => let r := get_exec_str config input batch_mode in
           (r, emit (EExec i input batch_mode r) w).

Definition call_output_file_path (i : nat) (config : _SBEConfig)
    (input : string) : M string :=
  fun w => let r := output_file_path config input in
           (r, emit (EOut i input r) w).

(** ** class Batch *)

Definition config_header_comment : string :=
  "@ Generated by the seabird-processing Python package".

(** [Batch(stages)]: the instance at [self] keeps the reference it is given. *)
Definition __init__ (self stages : nat) : M unit :=
  modify (fun w => set_heap (<[self := BatchObj stages]> (heap w)) w).

(** [self.stages] *)
Definition getattr_stages (self : nat) : M nat :=
  fun w => match heap w !! self with
           | Some (BatchObj stages) => (Return stages, w)
           | _ => (Raise (TypeError "not a Batch"), w)
           end.

(** [next] on the one-shot iterator at [stages]: [rest] is what it has left. *)
Definition consume (stages : nat) (rest : list _SBEConfig) : M unit :=
  modify (fun w => set_heap (<[stages := IterObj rest]> (heap w)) w).

(** [iter(stages)]: the items the loop will meet, and what each [next] does to
    the store.  A list hands out a private iterator; a one-shot iterator is
    its own iterator, and every [next] consumes it; a [Batch] cannot be
    iterated.  (An address that holds nothing does not arise in Python; it is
    answered like an object that cannot be iterated.) *)
Definition iter (stages : nat) : M (list _SBEConfig * (list _SBEConfig -> M unit)) :=
  fun w => match heap w !! stages with
           | Some (ListObj items) => (Return (items, fun _ => ret tt), w)
           | Some (IterObj remaining) => (Return (remaining, consume stages), w)
           | _ => (Raise (TypeError "object is not iterable"), w)
           end.

(** The body of [for config in self.stages], from stage number [i] on.
    [items] is what the iterator has left to give when the loop gets there;
    each turn starts with the [next] that takes [config] from it. *)
Fixpoint for_stages (advance : list _SBEConfig -> M unit) (items : list _SBEConfig)
    (i : nat) (batch_config_str : list string) (next_input_file : string)
    : M (list string * string) :=
  match items with
  | [] => ret (batch_config_str, next_input_file)
  | config :: rest =>
      advance rest ;;;
      line <- call_get_exec_str i config next_input_file true ;;
      out <- call_output_file_path i config next_input_file ;;
      for_stages advance rest (S i) (batch_config_str ++ [line]) (Path_name out)
  end.

Definition get_batch_config_str (self : nat) (input_file_pattern : string) : M string :=
  stages <- getattr_stages self ;;
  it <- iter stages ;;
  st <- for_stages (snd it) (fst it) 0 [config_header_comment] input_file_pattern ;;
  ret (join nl (fst st)).

(** ** The operating system

    What the primitives used by [__call__] answer is not decided by this
    module: the temporary directory may be missing, a write may fail, the
    child process exits with the status it likes.  An [OS] fixes these
    answers; the properties of [__call__] hold for every [OS].  The child
    process reads the store but is not given the means to change the
    temporary directory. *)

Record OS : Type := {
  gettempdir_error : option exception;
  random_names : list string;
  write_error : string -> string -> option exception;
  flush_error : string -> string -> option exception;
  close_error : string -> string -> option exception;
  run_process : list string -> gmap string string -> process_result
}.

(** The store once the file [name] exists, empty, with an empty buffer. *)
Definition create_file (name : string) (w : world) : world :=
  emit (ECreate name)
    (set_buffers (<[name := ""]> (buffers w))
       (set_tmpdir (<[name := ""]> (tmpdir w)) w)).

Section Runner.
Variable os : OS.

(** [tempfile._mkstemp_inner]: draw names until one does not exist yet, and
    create that file, exclusively. *)
Definition mkstemp_inner (prefix suffix : string) : M string :=
  fun w =>
    match gettempdir_error os with
    | Some e => (Raise e, w)
    | None =>
        match List.find (fun name => bool_decide (tmpdir w !! name = None))
                        (List.map (fun r => prefix +:+ r +:+ suffix) (random_names os)) with
        | Some name => (Return name, create_file name w)
        | None => (Raise FileExistsError, w)
        end
    end.

(** [NamedTemporaryFile("w", suffix=...)]; the file object is known by its name. *)
Definition NamedTemporaryFile (suffix : string) : M string :=
  mkstemp_inner "tmp" suffix.

(** [file.write(text)]: the text joins the buffer of the file object. *)
Definition file_write (name text : string) : M unit :=
  fun w =>
    match write_error os name text with
    | Some e => (Raise e, emit (EWrite name text (Some e)) w)
    | None =>
        (Return tt,
         emit (EWrite name text None)
           (set_buffers (alter (fun pending => pending +:+ text) name (buffers w)) w))
    end.

(** [file.flush()]: the buffer reaches the file. *)
Definition file_flush (name : string) : M unit :=
  fun w =>
    let pending := default "" (buffers w !! name) in
    match flush_error os name pending with
    | Some e => (Raise e, emit (EFlush name (Some e)) w)
    | None =>
        (Return tt,
         emit (EFlush name None)
           (set_buffers (<[name := ""]> (buffers w))
              (set_tmpdir (alter (fun content => content +:+ pending) name (tmpdir w)) w)))
    end.

(** [file.close()]: what is still buffered is flushed, which may fail; the
    file object is gone either way. *)
Definition file_close (name : string) : M unit :=
  fun w =>
    let pending := default "" (buffers w !! name) in
    let w1 := set_buffers (delete name (buffers w)) w in
    if String.eqb pending "" then (Return tt, w1)
    else match close_error os name pending with
         | Some e => (Raise e, emit (EFlush name (Some e)) w1)
         | None =>
             (Return tt,
              emit (EFlush name None)
                (set_tmpdir (alter (fun content => content +:+ pending) name (tmpdir w1)) w1))
         end.

(** [os.unlink(name)] *)
Definition os_unlink (name : string) : M unit :=
  fun w =>
    match tmpdir w !! name with
    | Some _ => (Return tt, emit (EUnlink name) (set_tmpdir (delete name (tmpdir w)) w))
    | None => (Raise (FileNotFoundError name), w)
    end.

(** [_TemporaryFileCloser.close]: [try: self.file.close() finally: unlink(self.name)] *)
Definition tempfile_close (name : string) : M unit :=
  try_finally (file_close name) (os_unlink name).

(** [_TemporaryFileWrapper.__exit__]: [self.file.__exit__(...)], which closes
    the file object, and then [self.close()]; when the first raises, the
    second, and with it the unlink, is not reached. *)
Definition tempfile_exit (name : string) : M unit :=
  file_close name ;;;
  tempfile_close name.

(** [with NamedTemporaryFile("w", suffix=...) as f: body]: when the file
    cannot be created there is nothing to release; once it is, [__exit__]
    runs on either exit of the block, and what it raises replaces what the
    block raised. *)
Definition with_NamedTemporaryFile {A} (suffix : string) (body : string -> M A) : M A :=
  f <- NamedTemporaryFile suffix ;;
  try_finally (body f) (tempfile_exit f).

(** [subprocess.run(cmd, check=check)]: blocks until the child has exited. *)
Definition subprocess_run (cmd : list string) (check : bool) : M Z :=
  fun w =>
    let r := run_process os cmd (tmpdir w) in
    let w1 := emit (ESpawn cmd (cmd !! 1 ≫= fun name => tmpdir w !! name) r) w in
    match r with
    | NotStarted e => (Raise e, w1)
    | Exited returncode =>
        if check && negb (returncode =? 0)%Z
        then (Raise (CalledProcessError returncode cmd), w1)
        else (Return returncode, w1)
    end.

Definition __call__ (self : nat) (input_file_pattern : string) : M unit :=
  with_NamedTemporaryFile ".txt" (fun config_file =>
    text <- get_batch_config_str self input_file_pattern ;;
    file_write config_file text ;;;
    file_flush config_file ;;;
    subprocess_run ["sbebatch"; config_file] true ;;;
    ret tt).

End Runner.

(** ** Reading a log *)

(** What a call added to the log. *)
Definition events_since (w w' : world) : list event :=
  drop (length (log w)) (log w').

(** The two stages of the documented scenario. *)
Definition stageA : _SBEConfig :=
  {| get_exec_str := fun p _ => Return ("stageA -i " +:+ p);
     output_file_path := fun _ => Return "dir/out_a.cnv" |}.
Definition stageB : _SBEConfig :=
  {| get_exec_str := fun p _ => Return ("stageB -i " +:+ p);
     output_file_path := fun _ => Return "out_b.cnv" |}.

(** ** Reading a call *)

Definition result_of {A} (m : M A) (w : world) : outcome A := fst (m w).
Definition world_after {A} (m : M A) (w : world) : world := snd (m w).
Definition events_of {A} (m : M A) (w : world) : list event :=
  events_since w (world_after m w).

(** The instance at [self] holds a list of these stages... *)
Definition list_pipeline (w : world) (self : nat) (items : list _SBEConfig) : Prop :=
  exists stages, heap w !! self = Some (BatchObj stages) /\
                 heap w !! stages = Some (ListObj items).

(** ...or a one-shot iterator that still has these stages to give. *)
Definition iterator_pipeline (w : world) (self : nat) (items : list _SBEConfig) : Prop :=
  exists stages, heap w !! self = Some (BatchObj stages) /\
                 heap w !! stages = Some (IterObj items).

Definition pipeline_of (w : world) (self : nat) (items : list _SBEConfig) : Prop :=
  list_pipeline w self items \/ iterator_pipeline w self items.

(** The exception a stage call ended with, if it did. *)
Definition raised (ev : event) : option exception :=
  match ev with
  | EExec _ _ _ (Raise e) | EOut _ _ (Raise e) => Some e
  | _ => None
  end.

(** The number of the stage whose method the event is a call of. *)
Definition stage_index (ev : event) : option nat :=
  match ev with
  | EExec i _ _ _ | EOut i _ _ => Some i
  | _ => None
  end.

(** The text the stage method was called with. *)
Definition stage_input (ev : event) : option string :=
  match ev with
  | EExec _ input _ _ | EOut _ input _ => Some input
  | _ => None
  end.

(** The exec strings that the stages returned, in the order of the calls. *)
Fixpoint exec_strings (evs : list event) : list string :=
  match evs with
  | [] => []
  | EExec _ _ _ (Return line) :: rest => line :: exec_strings rest
  | _ :: rest => exec_strings rest
  end.

(** An event that is neither a stage call nor the creation or the removal
    of a file. *)
Definition file_event_only (ev : event) : Prop :=
  raised ev = None /\ stage_index ev = None /\
  (forall n, ev <> ECreate n) /\ (forall n, ev <> EUnlink n).

Definition is_spawn (ev : event) : bool :=
  match ev with ESpawn _ _ _ => true | _ => false end.

(** The stage calls of a well-threaded loop, from stage [i] fed with [input]:
    both methods of a stage get the same text, the next stage gets the name
    of the path this one declared, and the calls stop at the first that
    raises. *)
Inductive threaded : nat -> string -> list event -> Prop :=
| threaded_end i input :
    threaded i input []
| threaded_exec_raises i input e :
    threaded i input [EExec i input true (Raise e)]
| threaded_out_raises i input line e :
    threaded i input [EExec i input true (Return line); EOut i input (Raise e)]
| threaded_next i input line out rest :
    threaded (S i) (Path_name out) rest ->
    threaded i input (EExec i input true (Return line) :: EOut i input (Return out) :: rest).

(** The loop of [get_batch_config_str] without the store: the calls it makes,
    what it ends with (the lines it appends and the last threaded name), and
    how many stages it took from the collection. *)
Record loop_run : Type := {
  loop_events : list event;
  loop_result : outcome (list string * string);
  loop_consumed : nat
}.

Fixpoint chain (items : list _SBEConfig) (i : nat) (input : string) : loop_run :=
  match items with
  | [] => {| loop_events := []; loop_result := Return ([], input); loop_consumed := 0 |}
  | config :: rest =>
      let r := get_exec_str config input true in
      match r with
      | Raise e =>
          {| loop_events := [EExec i input true r];
             loop_result := Raise e; loop_consumed := 1 |}
      | Return line =>
          let o := output_file_path config input in
          match o with
          | Raise e =>
              {| loop_events := [EExec i input true r; EOut i input o];
                 loop_result := Raise e; loop_consumed := 1 |}
          | Return out =>
              let tl := chain rest (S i) (Path_name out) in
              {| loop_events := EExec i input true r :: EOut i input o :: loop_events tl;
                 loop_result := match loop_result tl with
                                | Return (ls, final) => Return (line :: ls, final)
                                | Raise e => Raise e
                                end;
                 loop_consumed := S (loop_consumed tl) |}
          end
      end
  end.

(** A [next] that touches nothing but the heap. *)
Definition heap_only (advance : list _SBEConfig -> M unit) : Prop :=
  forall rest w, exists h, advance rest w = (Return tt, set_heap h w).

Definition render_result (items : list _SBEConfig) (input_file_pattern : string)
    : outcome string :=
  match loop_result (chain items 0 input_file_pattern) with
  | Return (ls, _) => Return (join nl (config_header_comment :: ls))
  | Raise e => Raise e
  end.

(** What follows the render inside the [with] block, without the store: the
    calls made on the file [name] before it is unlinked, and how the block
    ends.  [base] is the temporary directory the call started with. *)
Definition after_render (os : OS) (name : string) (base : gmap string string)
    (r : outcome string) : list event * outcome unit :=
  match r with
  | Raise e => ([], Raise e)
  | Return text =>
      match write_error os name text with
      | Some e => ([EWrite name text (Some e)], Raise e)
      | None =>
          match flush_error os name text with
          | Some e =>
              if String.eqb text "" then
                ([EWrite name text None; EFlush name (Some e)], Raise e)
              else
                match close_error os name text with
                | Some e' =>
                    ([EWrite name text None; EFlush name (Some e);
                      EFlush name (Some e')], Raise e')
                | None =>
                    ([EWrite name text None; EFlush name (Some e);
                      EFlush name None], Raise e)
                end
          | None =>
              let cmd := ["sbebatch"; name] in
              let pr := run_process os cmd (<[name := text]> base) in
              ([EWrite name text None; EFlush name None; ESpawn cmd (Some text) pr],
               match pr with
               | NotStarted e => Raise e
               | Exited returncode =>
                   if (returncode =? 0)%Z then Return tt
                   else Raise (CalledProcessError returncode cmd)
               end)
          end
      end
  end.

(** Does the block end with the file object failing to close?  That is when
    the flush failed and the flush that the close tries again fails too. *)
Definition leaks (os : OS) (name : string) (r : outcome string) : bool :=
  match r with
  | Raise _ => false
  | Return text =>
      match write_error os name text, flush_error os name text with
      | None, Some _ =>
          negb (String.eqb text "") &&
          match close_error os name text with Some _ => true | None => false end
      | _, _ => false
      end
  end.

(** The last thing a call logs: the unlink, when it is reached. *)
Definition closing (os : OS) (name : string) (r : outcome string) : list event :=
  if leaks os name r then [] else [EUnlink name].

(** ** Stores and systems to try the module on *)

(** A stage whose command spans two lines. *)
Definition two_line_stage : _SBEConfig :=
  {| get_exec_str := fun p _ => Return ("datcnv /i" +:+ p +:+ nl +:+ "/s");
     output_file_path := fun _ => Return "out.cnv" |}.

(** A stage that rejects its input. *)
Definition rejecting_stage : _SBEConfig :=
  {| get_exec_str := fun _ _ => Raise (StageError "unsupported input");
     output_file_path := fun _ => Return "out.cnv" |}.

(** A stage that can say how to run but not where its output goes. *)
Definition no_output_stage : _SBEConfig :=
  {| get_exec_str := fun p _ => Return ("stageC -i " +:+ p);
     output_file_path := fun _ => Raise (StageError "no output directory") |}.

(** [Batch(items)], built at address 0 from the list at address 1. *)
Definition list_world (items : list _SBEConfig) : world :=
  world_after (__init__ 0 1) (World {[ 1 := ListObj items ]} ∅ ∅ []).

(** [Batch(iter(items))], built at address 0 from the iterator at address 1. *)
Definition iterator_world (items : list _SBEConfig) : world :=
  world_after (__init__ 0 1) (World {[ 1 := IterObj items ]} ∅ ∅ []).

(** A system where every primitive succeeds and the child exits with [status]. *)
Definition plain_os (status : Z) : OS :=
  {| gettempdir_error := None;
     random_names := ["k3x9q2"; "p0d7wm"];
     write_error := fun _ _ => None;
     flush_error := fun _ _ => None;
     close_error := fun _ _ => None;
     run_process := fun _ _ => Exited status |}.

(** Is the event a call of [get_exec_str]? *)
Definition is_exec (ev : event) : bool :=
  match ev with EExec _ _ _ _ => true | _ => false end.

(** A [Batch] built on another [Batch], which cannot be iterated. *)
Definition nested_world : world :=
  world_after (__init__ 0 1) (World {[ 1 := BatchObj 2 ]} ∅ ∅ []).

(** Two [Batch] instances, at 0 and at 2, built on the iterator at 1. *)
Definition shared_iterator_world (items : list _SBEConfig) : world :=
  world_after (__init__ 2 1) (iterator_world items).

(** A system where the disk is full: writes are taken in the buffer, no
    flush gets through. *)
Definition full_disk_os : OS :=
  {| gettempdir_error := None;
     random_names := ["k3x9q2"; "p0d7wm"];
     write_error := fun _ _ => None;
     flush_error := fun _ _ => Some (OSError "No space left on device");
     close_error := fun _ _ => Some (OSError "No space left on device");
     run_process := fun _ _ => Exited 0 |}.

(** A system without temporary directory. *)
Definition no_tmpdir_os : OS :=
  {| gettempdir_error := Some (FileNotFoundError "No usable temporary directory found");
     random_names := ["k3x9q2"];
     write_error := fun _ _ => None;
     flush_error := fun _ _ => None;
     close_error := fun _ _ => None;
     run_process := fun _ _ => Exited 0 |}.

(** A system where [sbebatch] is not installed. *)
Definition no_sbebatch_os : OS :=
  {| gettempdir_error := None;
     random_names := ["k3x9q2"; "p0d7wm"];
     write_error := fun _ _ => None;
     flush_error := fun _ _ => None;
     close_error := fun _ _ => None;
     run_process := fun _ _ => NotStarted (FileNotFoundError "sbebatch") |}.

(** A stage that declares the current directory as its output path. *)
Definition dot_output_stage : _SBEConfig :=
  {| get_exec_str := fun p _ => Return ("stageD -i " +:+ p);
     output_file_path := fun _ => Return "./" |}.

(** * Properties *)

(** ** Splitting and joining *)

Lemma split_on_cons (c : ascii) (s : string) :
  exists piece pieces, split_on c s = piece :: pieces.
Proof.
  induction s as [|d s IH]; simpl; [eauto|].
  destruct (Ascii.eqb d c); [eauto|].
  destruct IH as (piece & pieces & ->); eauto.
Qed.

Lemma split_on_absent (c : ascii) (s : string) :
  occurs c s = false -> split_on c s = [s].
Proof.
  induction s as [|d s IH]; simpl; [done|].
  intros [Hd Hs]%orb_false_iff. rewrite Hd, (IH Hs). done.
Qed.

Lemma split_on_app (c : ascii) (a b : string) :
  occurs c a = false ->
  split_on c (a +:+ String c b) = a :: split_on c b.
Proof.
  induction a as [|d a IH]; simpl.
  - intros _. by rewrite Ascii.eqb_refl.
  - intros [Hd Ha]%orb_false_iff. rewrite Hd, (IH Ha). done.
Qed.

Lemma split_on_pieces (c : ascii) (s : string) :
  Forall (fun piece => occurs c piece = false) (split_on c s).
Proof.
  induction s as [|d s IH]; simpl; [by repeat constructor|].
  destruct (Ascii.eqb d c) eqn:Hd; [by constructor|].
  destruct (split_on c s) as [|piece pieces]; [by repeat constructor; simpl; rewrite Hd|].
  inversion IH; subst. constructor; [|done]. simpl. by rewrite Hd.
Qed.

Lemma split_on_sep_app (c : ascii) (a b : string) :
  split_on c (a +:+ String c b) = split_on c a ++ split_on c b.
Proof.
  induction a as [|d a IH]; simpl.
  - by rewrite Ascii.eqb_refl.
  - destruct (Ascii.eqb d c); [by rewrite IH|].
    rewrite IH. destruct (split_on_cons c a) as (piece & pieces & ->). done.
Qed.

Lemma join_cons (sep x y : string) (rest : list string) :
  join sep (x :: y :: rest) = x +:+ sep +:+ join sep (y :: rest).
Proof. reflexivity. Qed.

(** Splitting at newlines undoes joining with newlines, as long as no item
    holds a newline of its own. *)
Lemma lines_join (x : string) (rest : list string) :
  Forall (fun s => occurs newline s = false) (x :: rest) ->
  lines (join nl (x :: rest)) = x :: rest.
Proof.
  revert x. induction rest as [|y rest IH]; intros x Hall.
  - inversion Hall; subst. by apply split_on_absent.
  - inversion Hall as [|? ? Hx Hrest]; subst.
    rewrite join_cons.
    change (x +:+ nl +:+ join nl (y :: rest))
      with (x +:+ String newline (join nl (y :: rest))).
    unfold lines. rewrite split_on_app by done. f_equal. by apply IH.
Qed.

(** ** [Path.name] strips the directories *)

Lemma Path_name_no_slash (path : string) :
  occurs slash (Path_name path) = false.
Proof.
  unfold Path_name, path_tail.
  assert (Hall : Forall (fun piece => occurs slash piece = false)
                   (List.filter kept_component (split_on slash path))).
  { apply List.Forall_forall. intros piece [Hin _]%filter_In.
    by apply (proj1 (List.Forall_forall _ _) (split_on_pieces slash path)). }
  induction Hall as [|piece pieces Hp Hall IH]; [done|].
  destruct pieces; [done|]. exact IH.
Qed.

Lemma Path_name_leaf (dir leaf : string) :
  kept_component leaf = true -> occurs slash leaf = false ->
  Path_name (dir +:+ String slash leaf) = leaf.
Proof.
  intros Hkept Hleaf. unfold Path_name, path_tail.
  rewrite split_on_sep_app, List.filter_app, (split_on_absent _ _ Hleaf).
  simpl. rewrite Hkept. apply last_last.
Qed.

Lemma Path_name_plain (leaf : string) :
  kept_component leaf = true -> occurs slash leaf = false ->
  Path_name leaf = leaf.
Proof.
  intros Hkept Hleaf. unfold Path_name, path_tail.
  rewrite (split_on_absent _ _ Hleaf). simpl. by rewrite Hkept.
Qed.

(** ** The loop, step by step and as a whole *)

Ltac world_simpl :=
  unfold emit, set_heap, set_tmpdir, set_buffers; simpl.

Lemma for_stages_chain advance :
  heap_only advance ->
  forall items i acc input w,
  exists h,
    for_stages advance items i acc input w =
      (match loop_result (chain items i input) with
       | Return (ls, final) => Return (acc ++ ls, final)
       | Raise e => Raise e
       end,
       World h (tmpdir w) (buffers w) (log w ++ loop_events (chain items i input))).
Proof.
  intros Hadv. induction items as [|config rest IH]; intros i acc input w.
  - exists (heap w). simpl. unfold ret. rewrite !app_nil_r. by destruct w.
  - simpl. unfold bind at 1. destruct (Hadv rest w) as [h ->].
    unfold bind at 1, call_get_exec_str.
    destruct (get_exec_str config input true) as [line|e] eqn:Hexec.
    + unfold bind at 1, call_output_file_path.
      destruct (output_file_path config input) as [out|e] eqn:Hout.
      * edestruct IH as [h' ->]. exists h'. world_simpl.
        destruct (loop_result (chain rest (S i) (Path_name out))) as [[ls final]|e];
          rewrite <- ?app_assoc; reflexivity.
      * exists h. world_simpl. rewrite <- app_assoc. reflexivity.
    + exists h. reflexivity.
Qed.

Lemma for_stages_list_heap items : forall i acc input w,
  heap (snd (for_stages (fun _ => ret tt) items i acc input w)) = heap w.
Proof.
  induction items as [|config rest IH]; intros i acc input w; [done|].
  simpl. unfold bind at 1, ret at 1. unfold bind at 1, call_get_exec_str.
  destruct (get_exec_str config input true) as [line|e]; [|done].
  unfold bind at 1, call_output_file_path.
  destruct (output_file_path config input) as [out|e]; [|done].
  by rewrite IH.
Qed.

Lemma for_stages_iter_heap stages items : forall i acc input w,
  heap w !! stages = Some (IterObj items) ->
  heap (snd (for_stages (consume stages) items i acc input w)) =
    <[stages := IterObj (drop (loop_consumed (chain items i input)) items)]> (heap w).
Proof.
  induction items as [|config rest IH]; intros i acc input w Hs.
  - simpl. by rewrite insert_id.
  - simpl. unfold bind at 1, consume at 1, modify. unfold bind at 1, call_get_exec_str.
    destruct (get_exec_str config input true) as [line|e]; [|done].
    unfold bind at 1, call_output_file_path.
    destruct (output_file_path config input) as [out|e]; [|done].
    rewrite IH; simpl; [|by rewrite lookup_insert_eq].
    by rewrite insert_insert_eq.
Qed.

Lemma heap_only_list : heap_only (fun _ => ret tt).
Proof. intros rest w. exists (heap w). unfold ret. by destruct w. Qed.

Lemma heap_only_consume stages : heap_only (consume stages).
Proof. intros rest w. by eexists. Qed.

(** ** [get_batch_config_str] on each kind of collection *)

Lemma render_list w self items p :
  list_pipeline w self items ->
  get_batch_config_str self p w =
    (render_result items p,
     World (heap w) (tmpdir w) (buffers w) (log w ++ loop_events (chain items 0 p))).
Proof.
  intros (stages & Hself & Hstages).
  unfold get_batch_config_str, bind at 1, getattr_stages. rewrite Hself.
  unfold bind at 1, iter. rewrite Hstages. simpl.
  pose proof (for_stages_list_heap items 0 [config_header_comment] p w) as Hheap.
  destruct (for_stages_chain _ heap_only_list items 0 [config_header_comment] p w)
    as [h Heq].
  rewrite Heq in Hheap. simpl in Hheap. subst h.
  unfold bind, render_result. rewrite Heq.
  by destruct (loop_result (chain items 0 p)) as [[ls final]|e].
Qed.

Lemma render_iterator w self stages items p :
  heap w !! self = Some (BatchObj stages) ->
  heap w !! stages = Some (IterObj items) ->
  get_batch_config_str self p w =
    (render_result items p,
     World (<[stages := IterObj (drop (loop_consumed (chain items 0 p)) items)]> (heap w))
           (tmpdir w) (buffers w) (log w ++ loop_events (chain items 0 p))).
Proof.
  intros Hself Hstages.
  unfold get_batch_config_str, bind at 1, getattr_stages. rewrite Hself.
  unfold bind at 1, iter. rewrite Hstages. simpl.
  pose proof (for_stages_iter_heap stages items 0 [config_header_comment] p w Hstages)
    as Hheap.
  destruct (for_stages_chain _ (heap_only_consume stages) items 0
              [config_header_comment] p w) as [h Heq].
  rewrite Heq in Hheap. simpl in Hheap. subst h.
  unfold bind, render_result. rewrite Heq.
  by destruct (loop_result (chain items 0 p)) as [[ls final]|e].
Qed.

Lemma render_not_a_pipeline w self p :
  (forall items, ~ pipeline_of w self items) ->
  exists what, get_batch_config_str self p w = (Raise (TypeError what), w).
Proof.
  intros Hnone. unfold get_batch_config_str, bind at 1, getattr_stages.
  destruct (heap w !! self) as [[l0|l0|stages]|] eqn:Hself; try by eexists.
  unfold bind at 1, iter.
  destruct (heap w !! stages) as [[items|items|s0]|] eqn:Hstages; try by eexists.
  - destruct (Hnone items). left. by exists stages.
  - destruct (Hnone items). right. by exists stages.
Qed.

(** Whatever the store holds, a render leaves the files and the buffers
    alone, keeps the attribute of [self], and adds to the log the calls of the
    loop only. *)
Lemma render_frame w self p :
  exists r h evs,
    get_batch_config_str self p w =
      (r, World h (tmpdir w) (buffers w) (log w ++ evs)) /\
    h !! self = heap w !! self /\
    ((exists what, r = Raise (TypeError what) /\ evs = [] /\ h = heap w /\
                   forall items, ~ pipeline_of w self items) \/
     (exists items, pipeline_of w self items /\ r = render_result items p /\
                    evs = loop_events (chain items 0 p))).
Proof.
  assert (Hnot : (forall items, ~ pipeline_of w self items) ->
    exists r h evs,
      get_batch_config_str self p w =
        (r, World h (tmpdir w) (buffers w) (log w ++ evs)) /\
      h !! self = heap w !! self /\
      ((exists what, r = Raise (TypeError what) /\ evs = [] /\ h = heap w /\
                     forall items, ~ pipeline_of w self items) \/
       (exists items, pipeline_of w self items /\ r = render_result items p /\
                      evs = loop_events (chain items 0 p)))).
  { intros Hnone. destruct (render_not_a_pipeline w self p Hnone) as [what Heq].
    exists (Raise (TypeError what)), (heap w), []. rewrite app_nil_r.
    split; [by destruct w|]. split; [done|]. left. by exists what. }
  destruct (heap w !! self) as [[l0|l0|stages]|] eqn:Hself.
  1,2,4: apply Hnot; intros items [(s & Hs & _)|(s & Hs & _)]; congruence.
  destruct (heap w !! stages) as [[items|items|s0]|] eqn:Hstages.
  - exists (render_result items p), (heap w), (loop_events (chain items 0 p)).
    assert (Hl : list_pipeline w self items) by (by exists stages).
    split; [by apply render_list|]. split; [done|].
    right. exists items. split; [by left|done].
  - eexists (render_result items p), _, (loop_events (chain items 0 p)).
    split; [by apply render_iterator|]. split.
    { rewrite lookup_insert_ne; [done|]. intros ->. congruence. }
    right. exists items. split; [right; by exists stages|done].
  - apply Hnot. intros items [(s & Hs & Hs')|(s & Hs & Hs')]; congruence.
  - apply Hnot. intros items [(s & Hs & Hs')|(s & Hs & Hs')]; congruence.
Qed.

(** ** What the loop guarantees *)

Lemma chain_threaded items : forall i input,
  threaded i input (loop_events (chain items i input)).
Proof.
  induction items as [|config rest IH]; intros i input; simpl; [constructor|].
  destruct (get_exec_str config input true) as [line|e]; [|constructor].
  destruct (output_file_path config input) as [out|e]; [|constructor].
  simpl. constructor. apply IH.
Qed.

Lemma chain_returns items : forall i input ls final,
  loop_result (chain items i input) = Return (ls, final) ->
  ls = exec_strings (loop_events (chain items i input)) /\
  length ls = length items /\
  loop_consumed (chain items i input) = length items /\
  Forall (fun ev => raised ev = None) (loop_events (chain items i input)) /\
  (forall k line, ls !! k = Some line ->
     exists config inp,
       items !! k = Some config /\
       get_exec_str config inp true = Return line /\
       In (EExec (i + k) inp true (Return line))
          (loop_events (chain items i input))) /\
  (forall k, k < length items ->
     exists inp out, In (EOut (i + k) inp (Return out))
                        (loop_events (chain items i input))).
Proof.
  induction items as [|config rest IH]; intros i input ls final; simpl.
  - intros [= <- <-]. repeat split; try done. intros; lia.
  - destruct (get_exec_str config input true) as [line|e] eqn:Hline; [|done].
    destruct (output_file_path config input) as [out|e]; [|done]. simpl.
    destruct (loop_result (chain rest (S i) (Path_name out)))
      as [[ls' final']|e] eqn:Hrest; [|done].
    intros [= <- <-].
    destruct (IH _ _ _ _ Hrest) as (Hls & Hlen & Hcons & Hnone & Hexec & Hout).
    repeat split.
    + simpl. by rewrite <- Hls.
    + simpl. by rewrite Hlen.
    + by rewrite Hcons.
    + by repeat constructor.
    + intros [|k] l Hl.
      * injection Hl as <-. exists config, input. rewrite Nat.add_0_r.
        repeat split; [done|]. by left.
      * destruct (Hexec k l Hl) as (c & inp & Hc & Hl' & Hin). exists c, inp.
        replace (i + S k) with (S i + k) by lia. repeat split; [done..|].
        by do 2 right.
    + intros [|k] Hk.
      * exists input, out. rewrite Nat.add_0_r. right. by left.
      * destruct (Hout k ltac:(lia)) as (inp & o & Hin). exists inp, o.
        replace (i + S k) with (S i + k) by lia. by do 2 right.
Qed.

Lemma chain_raises items : forall i input e,
  loop_result (chain items i input) = Raise e ->
  exists pre ev,
    loop_events (chain items i input) = pre ++ [ev] /\
    raised ev = Some e /\
    Forall (fun ev' => raised ev' = None) pre.
Proof.
  induction items as [|config rest IH]; intros i input e; simpl; [done|].
  destruct (get_exec_str config input true) as [line|e'] eqn:Hexec.
  - destruct (output_file_path config input) as [out|e'] eqn:Hout; simpl.
    + destruct (loop_result (chain rest (S i) (Path_name out)))
        as [[ls' final']|e'] eqn:Hrest; [done|].
      intros [= ->]. destruct (IH _ _ _ Hrest) as (pre & ev & -> & Hev & Hpre).
      exists (EExec i input true (Return line) :: EOut i input (Return out) :: pre), ev.
      repeat split; [done|]. by repeat constructor.
    + intros [= ->]. exists [EExec i input true (Return line)], (EOut i input (Raise e)).
      repeat split. by repeat constructor.
  - intros [= ->]. exists [], (EExec i input true (Raise e)). by repeat split.
Qed.

Lemma chain_stage_events items : forall i input,
  Forall (fun ev => is_Some (stage_index ev) /\ is_spawn ev = false)
         (loop_events (chain items i input)).
Proof.
  induction items as [|config rest IH]; intros i input; simpl; [constructor|].
  destruct (get_exec_str config input true) as [line|e];
    [|by repeat constructor].
  destruct (output_file_path config input) as [out|e];
    [|by repeat constructor].
  simpl. repeat constructor; try by eexists. apply IH.
Qed.

Lemma events_since_app w h t b evs :
  events_since w (World h t b (log w ++ evs)) = evs.
Proof. unfold events_since. simpl. apply drop_app_length. Qed.

Lemma events_since_same w : events_since w w = [].
Proof. unfold events_since. apply drop_all. Qed.


(** ** Closing the temporary file *)

Section Cleanup.
Variable os : OS.

Lemma tempfile_exit_flushed name h t b l content :
  b !! name = Some "" -> t !! name = Some content ->
  tempfile_exit os name (World h t b l) =
    (Return tt, World h (delete name t) (delete name b) (l ++ [EUnlink name])).
Proof.
  intros Hb Ht. unfold tempfile_exit, bind, file_close. simpl. rewrite Hb. simpl.
  unfold tempfile_close, try_finally, file_close, os_unlink. simpl.
  rewrite lookup_delete_eq. simpl. rewrite Ht. by rewrite delete_delete_eq.
Qed.

Lemma tempfile_exit_pending name h t b l content pending :
  b !! name = Some pending -> String.eqb pending "" = false ->
  t !! name = Some content ->
  tempfile_exit os name (World h t b l) =
    match close_error os name pending with
    | Some e =>
        (Raise e, World h t (delete name b) (l ++ [EFlush name (Some e)]))
    | None =>
        (Return tt, World h (delete name t) (delete name b)
                          (l ++ [EFlush name None; EUnlink name]))
    end.
Proof.
  intros Hb Hne Ht. unfold tempfile_exit, bind, file_close. simpl. rewrite Hb. simpl.
  rewrite Hne. destruct (close_error os name pending) as [e|]; [done|].
  unfold tempfile_close, try_finally, file_close, os_unlink. world_simpl.
  rewrite lookup_delete_eq. simpl. rewrite lookup_alter_eq, Ht. simpl.
  by rewrite delete_delete_eq, delete_alter_eq, <- app_assoc.
Qed.

Lemma mkstemp_inner_fresh prefix suffix w name w' :
  mkstemp_inner os prefix suffix w = (Return name, w') ->
  tmpdir w !! name = None /\ w' = create_file name w.
Proof.
  unfold mkstemp_inner. destruct (gettempdir_error os); [done|].
  destruct (List.find _ _) as [found|] eqn:Hfind; [|done].
  intros [= <- <-]. apply find_some in Hfind as [_ Hfree].
  by apply bool_decide_eq_true in Hfree.
Qed.

Lemma mkstemp_inner_fails prefix suffix w e w' :
  mkstemp_inner os prefix suffix w = (Raise e, w') -> w' = w.
Proof.
  unfold mkstemp_inner. destruct (gettempdir_error os); [congruence|].
  destruct (List.find _ _); congruence.
Qed.

End Cleanup.

(** ** [__call__], case by case *)

Ltac same_world :=
  rewrite ?delete_insert_eq, ?delete_id by done;
  rewrite <- ?app_assoc; simpl; rewrite <- ?app_assoc; reflexivity.

Lemma call_cases os w self p :
  (exists e, NamedTemporaryFile os ".txt" w = (Raise e, w) /\
             __call__ os self p w = (Raise e, w)) \/
  (exists name r h evs,
     tmpdir w !! name = None /\
     NamedTemporaryFile os ".txt" w = (Return name, create_file name w) /\
     get_batch_config_str self p (create_file name w) =
       (r, World h (tmpdir (create_file name w)) (buffers (create_file name w))
                 (log (create_file name w) ++ evs)) /\
     h !! self = heap w !! self /\
     ((exists what, r = Raise (TypeError what) /\ evs = [] /\ h = heap w /\
                    forall items, ~ pipeline_of w self items) \/
      (exists items, pipeline_of w self items /\ r = render_result items p /\
                     evs = loop_events (chain items 0 p))) /\
     __call__ os self p w =
       (snd (after_render os name (tmpdir w) r),
        World h (if leaks os name r then <[name := ""]> (tmpdir w) else tmpdir w)
              (delete name (buffers w))
              (log w ++ ECreate name :: evs ++
               fst (after_render os name (tmpdir w) r) ++ closing os name r))).
Proof.
  destruct (NamedTemporaryFile os ".txt" w) as [[name|e] w1] eqn:Hcreate.
  2:{ left. exists e. unfold __call__, with_NamedTemporaryFile. unfold bind at 1.
      rewrite Hcreate. by rewrite (mkstemp_inner_fails _ _ _ _ _ _ Hcreate). }
  right. apply mkstemp_inner_fresh in Hcreate as Hfresh. destruct Hfresh as [Hfree ->].
  destruct (render_frame (create_file name w) self p)
    as (r & h & evs & Hrender & Hh & Hfacts).
  exists name, r, h, evs. repeat (split; [done|]).
  unfold __call__, with_NamedTemporaryFile. unfold bind at 1. rewrite Hcreate.
  unfold try_finally. unfold bind at 1. rewrite Hrender.
  destruct r as [text|e].
  - unfold bind at 1, file_write. unfold closing, leaks, after_render.
    destruct (write_error os name text) as [e|] eqn:Hwrite.
    + world_simpl. erewrite tempfile_exit_flushed by apply lookup_insert_eq.
      by same_world.
    + unfold bind at 1, file_flush. world_simpl.
      rewrite alter_insert_eq, lookup_insert_eq. simpl.
      change ("" +:+ text) with text.
      destruct (flush_error os name text) as [e|] eqn:Hflush.
      * destruct (String.eqb text "") eqn:Htext.
        -- apply String.eqb_eq in Htext as Hempty. rewrite Hempty at 1.
           erewrite tempfile_exit_flushed by apply lookup_insert_eq.
           by same_world.
        -- erewrite tempfile_exit_pending by
             first [apply lookup_insert_eq | exact Htext].
           destruct (close_error os name text) as [e'|]; by same_world.
      * unfold bind at 1, subprocess_run. world_simpl.
        rewrite insert_insert_eq, alter_insert_eq, lookup_insert_eq. simpl.
        change ("" +:+ text) with text.
        destruct (run_process os ["sbebatch"; name] (<[name:=text]> (tmpdir w)))
          as [returncode|e] eqn:Hrun.
        -- destruct (returncode =? 0)%Z; simpl;
             (erewrite tempfile_exit_flushed by apply lookup_insert_eq);
             by same_world.
        -- erewrite tempfile_exit_flushed by apply lookup_insert_eq.
           by same_world.
  - simpl. erewrite tempfile_exit_flushed by apply lookup_insert_eq.
    by same_world.
Qed.

(** ** Reading a well-threaded log *)

Lemma threaded_index_ge i input evs :
  threaded i input evs ->
  forall ev j, In ev evs -> stage_index ev = Some j -> i <= j.
Proof.
  induction 1 as [i input|i input e|i input line e|i input line out rest _ IH];
    intros ev j Hin Hj; simpl in Hin.
  - done.
  - destruct Hin as [<-|[]]. injection Hj as <-. lia.
  - destruct Hin as [<-|[<-|[]]]; injection Hj as <-; lia.
  - destruct Hin as [<-|[<-|Hin]]; [injection Hj as <-; lia..|].
    specialize (IH ev j Hin Hj). lia.
Qed.

Lemma threaded_batch_mode i input evs :
  threaded i input evs ->
  forall j inp bm r, In (EExec j inp bm r) evs -> bm = true.
Proof.
  induction 1 as [i input|i input e|i input line e|i input line out rest _ IH];
    intros j inp bm r Hin; simpl in Hin.
  - done.
  - destruct Hin as [[=]|[]]. congruence.
  - destruct Hin as [[=]|[[=]|[]]]. congruence.
  - destruct Hin as [[=]|[[=]|Hin]]; [congruence|]. by eapply IH.
Qed.

(** Where the text given to a stage comes from: the first stage of the loop
    gets the text the loop starts with, any other the name of the path that
    the stage before it declared for the text it was itself given. *)
Lemma threaded_fed i input evs :
  threaded i input evs ->
  forall ev j inp,
    In ev evs -> stage_index ev = Some j -> stage_input ev = Some inp ->
    (j = i /\ inp = input) \/
    (exists k inp' line out,
       j = S k /\ i <= k /\
       In (EExec k inp' true (Return line)) evs /\
       In (EOut k inp' (Return out)) evs /\
       inp = Path_name out).
Proof.
  induction 1 as [i input|i input e|i input line e|i input line out rest _ IH];
    intros ev j inp Hin Hj Hinp; simpl in Hin.
  - done.
  - destruct Hin as [<-|[]]. left. simpl in *. split; congruence.
  - destruct Hin as [<-|[<-|[]]]; left; simpl in *; split; congruence.
  - destruct Hin as [<-|[<-|Hin]]; [left; simpl in *; split; congruence..|].
    right. destruct (IH ev j inp Hin Hj Hinp)
      as [[-> ->]|(k & inp' & line' & out' & -> & Hk & Hexec & Hout & ->)].
    + exists i, input, line, out. repeat split; try done.
      * by left.
      * right. by left.
    + exists k, inp', line', out'. repeat split; try done.
      * lia.
      * by do 2 right.
      * by do 2 right.
Qed.

(** Each stage has each of its methods called at most once. *)
Lemma threaded_out_once i input evs :
  threaded i input evs ->
  forall j inp1 r1 inp2 r2,
    In (EOut j inp1 r1) evs -> In (EOut j inp2 r2) evs -> inp1 = inp2 /\ r1 = r2.
Proof.
  induction 1 as [i input|i input e|i input line e|i input line out rest Hrest IH];
    intros j inp1 r1 inp2 r2 H1 H2; simpl in H1, H2.
  - done.
  - by destruct H1 as [[=]|[]].
  - destruct H1 as [[=]|[[=]|[]]], H2 as [[=]|[[=]|[]]]. by subst.
  - destruct H1 as [[=]|[[=]|H1]], H2 as [[=]|[[=]|H2]]; subst.
    + done.
    + pose proof (threaded_index_ge _ _ _ Hrest _ _ H2 eq_refl). lia.
    + pose proof (threaded_index_ge _ _ _ Hrest _ _ H1 eq_refl). lia.
    + by eapply IH.
Qed.

Lemma threaded_exec_once i input evs :
  threaded i input evs ->
  forall j inp1 bm1 r1 inp2 bm2 r2,
    In (EExec j inp1 bm1 r1) evs -> In (EExec j inp2 bm2 r2) evs ->
    inp1 = inp2 /\ r1 = r2.
Proof.
  induction 1 as [i input|i input e|i input line e|i input line out rest Hrest IH];
    intros j inp1 bm1 r1 inp2 bm2 r2 H1 H2; simpl in H1, H2.
  - done.
  - destruct H1 as [[=]|[]], H2 as [[=]|[]]. by subst.
  - destruct H1 as [[=]|[[=]|[]]], H2 as [[=]|[[=]|[]]]. by subst.
  - destruct H1 as [[=]|[[=]|H1]], H2 as [[=]|[[=]|H2]]; subst.
    + done.
    + pose proof (threaded_index_ge _ _ _ Hrest _ _ H2 eq_refl). lia.
    + pose proof (threaded_index_ge _ _ _ Hrest _ _ H1 eq_refl). lia.
    + by eapply IH.
Qed.

(** A stage whose exec string was produced has its output path asked for,
    with the same text. *)
Lemma threaded_exec_then_out i input evs :
  threaded i input evs ->
  forall j inp line, In (EExec j inp true (Return line)) evs ->
    exists r, In (EOut j inp r) evs.
Proof.
  induction 1 as [i input|i input e|i input line e|i input line out rest _ IH];
    intros j inp l Hin; simpl in Hin.
  - done.
  - by destruct Hin as [[=]|[]].
  - destruct Hin as [[=]|[[=]|[]]]; subst. eexists. right. by left.
  - destruct Hin as [[=]|[[=]|Hin]]; subst.
    + eexists. right. by left.
    + destruct (IH _ _ _ Hin) as [r Hr]. exists r. by do 2 right.
Qed.

Lemma threaded_out_after_exec i input evs :
  threaded i input evs ->
  forall j inp r, In (EOut j inp r) evs ->
    exists line, In (EExec j inp true (Return line)) evs.
Proof.
  induction 1 as [i input|i input e|i input line e|i input line out rest _ IH];
    intros j inp r Hin; simpl in Hin.
  - done.
  - by destruct Hin as [[=]|[]].
  - destruct Hin as [[=]|[[=]|[]]]; subst. eexists. by left.
  - destruct Hin as [[=]|[[=]|Hin]]; subst.
    + eexists. by left.
    + destruct (IH _ _ _ Hin) as [l Hl]. exists l. by do 2 right.
Qed.

(** The calls are in the order of the stages. *)
Lemma threaded_sorted i input evs :
  threaded i input evs ->
  forall pre ev post, evs = pre ++ ev :: post ->
  forall ev' j k, In ev' pre -> stage_index ev' = Some j -> stage_index ev = Some k ->
    j <= k.
Proof.
  induction 1 as [i input|i input e|i input line e|i input line out rest Hrest IH];
    intros pre ev post Heq ev' j k Hin Hj Hk.
  - by destruct pre.
  - destruct pre as [|? [|? ?]]; simplify_eq/=. done.
  - destruct pre as [|? [|? [|? ?]]]; simplify_eq/=; [done|].
    destruct Hin as [<-|[]]. simpl in Hj. simplify_eq. done.
  - destruct pre as [|e1 [|e2 pre]]; simplify_eq/=; [done| |].
    + destruct Hin as [<-|[]]. simpl in Hj. simplify_eq. done.
    + assert (Hge : S i <= k).
      { eapply (threaded_index_ge _ _ _ Hrest ev); [|done].
        apply in_or_app. right. by left. }
      destruct Hin as [<-|[<-|Hin]]; simpl in Hj; simplify_eq; [lia..|].
      by eapply IH.
Qed.

(** ** Finding the one event that raised *)

Lemma unique_split (P : event -> Prop) (before : list event) x after pre ev post :
  before ++ x :: after = pre ++ ev :: post ->
  Forall (fun ev' => ~ P ev') before -> Forall (fun ev' => ~ P ev') after ->
  P ev ->
  pre = before /\ ev = x /\ post = after.
Proof.
  revert pre. induction before as [|b before IH]; intros pre Heq Hb Ha Hev.
  - destruct pre as [|y pre]; simplify_eq/=; [done|].
    exfalso. apply (proj1 (List.Forall_forall _ _) Ha ev); [|done].
    apply in_or_app. right. by left.
  - inversion Hb as [|? ? Hnb Hb']; subst.
    destruct pre as [|y pre]; simplify_eq/=; [done|].
    destruct (IH pre) as (-> & -> & ->); done.
Qed.

(** ** Render *)

Lemma render_pipeline w self items p :
  pipeline_of w self items ->
  exists h,
    get_batch_config_str self p w =
      (render_result items p,
       World h (tmpdir w) (buffers w) (log w ++ loop_events (chain items 0 p))) /\
    h !! self = heap w !! self.
Proof.
  intros [Hl|(stages & Hself & Hstages)].
  - exists (heap w). split; [by apply render_list|done].
  - eexists. split; [by apply render_iterator|].
    rewrite lookup_insert_ne; [done|]. intros ->. congruence.
Qed.

Lemma render_events w self items p :
  pipeline_of w self items ->
  events_of (get_batch_config_str self p) w = loop_events (chain items 0 p) /\
  result_of (get_batch_config_str self p) w = render_result items p.
Proof.
  intros Hp. destruct (render_pipeline w self items p Hp) as (h & Heq & _).
  unfold events_of, result_of, world_after. rewrite Heq. simpl.
  split; [apply events_since_app|done].
Qed.

Lemma render_events_threaded w self p :
  threaded 0 p (events_of (get_batch_config_str self p) w).
Proof.
  destruct (render_frame w self p) as (r & h & evs & Heq & _ & Hcases).
  unfold events_of, world_after. rewrite Heq. simpl. rewrite events_since_app.
  destruct Hcases as [(what & _ & -> & _)|(items & _ & _ & ->)].
  - constructor.
  - apply chain_threaded.
Qed.

Lemma chain_all_return items i input :
  (forall ev, In ev (loop_events (chain items i input)) -> raised ev = None) ->
  exists ls final, loop_result (chain items i input) = Return (ls, final).
Proof.
  intros Hnone.
  destruct (loop_result (chain items i input)) as [[ls final]|e] eqn:Hres; [by eauto|].
  destruct (chain_raises _ _ _ _ Hres) as (pre & ev & Hevs & Hev & _).
  rewrite (Hnone ev) in Hev; [done|]. rewrite Hevs. apply in_or_app. right. by left.
Qed.

(** C1, as the code has it.  When no stage call raises, render returns the
    header followed by the exec string of each stage, in order, with one
    newline between two neighbours and nothing after the last.  When,
    moreover, no exec string holds a newline of its own, the text has exactly
    [n + 1] lines and the first is the header. *)
Theorem render_header_then_one_line_per_stage w self items p :
  pipeline_of w self items ->
  (forall ev, In ev (events_of (get_batch_config_str self p) w) -> raised ev = None) ->
  result_of (get_batch_config_str self p) w =
    Return (join nl (config_header_comment ::
                     exec_strings (events_of (get_batch_config_str self p) w))) /\
  length (exec_strings (events_of (get_batch_config_str self p) w)) = length items /\
  (forall i line,
     exec_strings (events_of (get_batch_config_str self p) w) !! i = Some line ->
     exists config inp,
       items !! i = Some config /\
       get_exec_str config inp true = Return line /\
       In (EExec i inp true (Return line))
          (events_of (get_batch_config_str self p) w)) /\
  (Forall (fun line => occurs newline line = false)
          (exec_strings (events_of (get_batch_config_str self p) w)) ->
   forall text, result_of (get_batch_config_str self p) w = Return text ->
     lines text = config_header_comment ::
                  exec_strings (events_of (get_batch_config_str self p) w) /\
     length (lines text) = S (length items) /\
     head (lines text) = Some config_header_comment).
Proof.
  intros Hp Hnone. destruct (render_events w self items p Hp) as [Hevs Hres].
  rewrite Hevs in *. rewrite Hres. unfold render_result.
  destruct (chain_all_return _ _ _ Hnone) as (ls & final & Hloop). rewrite Hloop.
  destruct (chain_returns _ _ _ _ _ Hloop) as (Hls & Hlen & _ & _ & Hexec & _).
  rewrite <- Hls. split; [done|]. split; [done|]. split; [exact Hexec|].
  intros Hnl text Htext.
  assert (text = join nl (config_header_comment :: ls)) as -> by congruence.
  rewrite lines_join by (by constructor).
  repeat split. simpl. by rewrite Hlen.
Qed.

(** [Batch(stages)] refers to the collection it was given, and copies nothing. *)
Lemma init_refers_to_stages w self stages :
  heap (world_after (__init__ self stages) w) !! self = Some (BatchObj stages) /\
  forall other, other <> self ->
    heap (world_after (__init__ self stages) w) !! other = heap w !! other.
Proof.
  unfold world_after, __init__, modify. simpl. split.
  - apply lookup_insert_eq.
  - intros other Hne. by apply lookup_insert_ne.
Qed.

Lemma init_list_pipeline w self stages items :
  stages <> self -> heap w !! stages = Some (ListObj items) ->
  list_pipeline (world_after (__init__ self stages) w) self items.
Proof.
  intros Hne Hstages. destruct (init_refers_to_stages w self stages) as [Hself Hother].
  exists stages. split; [exact Hself|]. by rewrite Hother.
Qed.

Lemma init_iterator_pipeline w self stages items :
  stages <> self -> heap w !! stages = Some (IterObj items) ->
  iterator_pipeline (world_after (__init__ self stages) w) self items.
Proof.
  intros Hne Hstages. destruct (init_refers_to_stages w self stages) as [Hself Hother].
  exists stages. split; [exact Hself|]. by rewrite Hother.
Qed.

Lemma list_world_pipeline items : pipeline_of (list_world items) 0 items.
Proof. left. by apply init_list_pipeline. Qed.

Lemma iterator_world_pipeline items : pipeline_of (iterator_world items) 0 items.
Proof. right. by apply init_iterator_pipeline. Qed.

Lemma render_header_then_one_line_per_stage_witness :
  result_of (get_batch_config_str 0 "raw*.hex") (list_world [stageA; stageB]) =
    Return "@ Generated by the seabird-processing Python package
stageA -i raw*.hex
stageB -i out_a.cnv" /\
  length (lines "@ Generated by the seabird-processing Python package
stageA -i raw*.hex
stageB -i out_a.cnv") = 3.
Proof.
  destruct (render_header_then_one_line_per_stage
              (list_world [stageA; stageB]) 0 [stageA; stageB] "raw*.hex")
    as (Hres & Hlen & Hfrom & Hlines).
  - apply list_world_pipeline.
  - intros ev Hin. vm_compute in Hin.
    destruct Hin as [<-|[<-|[<-|[<-|[]]]]]; reflexivity.
  - split; [exact Hres|].
    apply Hlines; [|exact Hres].
    vm_compute. repeat constructor.
Defined.

(** C1 as stated fails on two pipelines of one stage: a stage whose exec
    string spans two lines makes render return three lines, not two, and a
    stage that raises makes render return nothing at all. *)
Lemma render_line_count_counterexample :
  pipeline_of (list_world [two_line_stage]) 0 [two_line_stage] /\
  result_of (get_batch_config_str 0 "cast.hex") (list_world [two_line_stage]) =
    Return "@ Generated by the seabird-processing Python package
datcnv /icast.hex
/s" /\
  length (lines "@ Generated by the seabird-processing Python package
datcnv /icast.hex
/s") = 3 /\
  3 <> S (length [two_line_stage]) /\
  pipeline_of (list_world [rejecting_stage]) 0 [rejecting_stage] /\
  result_of (get_batch_config_str 0 "cast.hex") (list_world [rejecting_stage]) =
    Raise (StageError "unsupported input").
Proof.
  split; [apply list_world_pipeline|]. split; [reflexivity|].
  split; [reflexivity|]. split; [simpl; lia|].
  split; [apply list_world_pipeline|reflexivity].
Qed.

Lemma chain_calls items : forall i input ev,
  In ev (loop_events (chain items i input)) ->
  match ev with
  | EExec j inp bm r =>
      exists config, i <= j /\ items !! (j - i) = Some config /\
                     r = get_exec_str config inp bm
  | EOut j inp r =>
      exists config, i <= j /\ items !! (j - i) = Some config /\
                     r = output_file_path config inp
  | _ => False
  end.
Proof.
  induction items as [|config rest IH]; intros i input ev; simpl; [done|].
  assert (Hhere : forall r,
    ev = EExec i input true r -> r = get_exec_str config input true ->
    match ev with
    | EExec j inp bm r =>
        exists c, i <= j /\ (config :: rest) !! (j - i) = Some c /\
                  r = get_exec_str c inp bm
    | EOut j inp r =>
        exists c, i <= j /\ (config :: rest) !! (j - i) = Some c /\
                  r = output_file_path c inp
    | _ => False
    end).
  { intros r -> ->. exists config. rewrite Nat.sub_diag. by repeat split. }
  assert (Hthere : forall r,
    ev = EOut i input r -> r = output_file_path config input ->
    match ev with
    | EExec j inp bm r =>
        exists c, i <= j /\ (config :: rest) !! (j - i) = Some c /\
                  r = get_exec_str c inp bm
    | EOut j inp r =>
        exists c, i <= j /\ (config :: rest) !! (j - i) = Some c /\
                  r = output_file_path c inp
    | _ => False
    end).
  { intros r -> ->. exists config. rewrite Nat.sub_diag. by repeat split. }
  destruct (get_exec_str config input true) as [line|e] eqn:Hexec.
  - destruct (output_file_path config input) as [out|e] eqn:Hout; simpl.
    + intros [<-|[<-|Hin]]; [by eapply Hhere|by eapply Hthere|].
      specialize (IH _ _ _ Hin).
      destruct ev as [j inp bm r|j inp r| | | | |]; try done;
        destruct IH as (c & Hj & Hc & Hr); exists c;
        (split; [lia|]); (split; [|done]);
        replace (j - i) with (S (j - S i)) by lia; done.
    + intros [<-|[<-|[]]]; [by eapply Hhere|by eapply Hthere].
  - intros [<-|[]]. by eapply Hhere.
Qed.

(** The loop gets to every stage it has a text for: a stage that is first,
    or whose predecessor declared a path, has its exec string asked for with
    that text, and, when the exec string comes, its output path as well. *)
Lemma chain_reaches items : forall i input k config inp,
  items !! k = Some config ->
  (k = 0 /\ inp = input \/
   exists k' inp' out,
     k = S k' /\
     In (EOut (i + k') inp' (Return out)) (loop_events (chain items i input)) /\
     inp = Path_name out) ->
  In (EExec (i + k) inp true (get_exec_str config inp true))
     (loop_events (chain items i input)) /\
  (forall line, get_exec_str config inp true = Return line ->
     In (EOut (i + k) inp (output_file_path config inp))
        (loop_events (chain items i input))).
Proof.
  induction items as [|c rest IH]; intros i input k config inp Hk Hfed; [done|].
  destruct k as [|k1].
  - injection Hk as ->.
    assert (inp = input) as ->.
    { by destruct Hfed as [[_ ->]|(k' & ? & ? & [=] & _)]. }
    rewrite Nat.add_0_r. simpl.
    destruct (get_exec_str config input true) as [line|e] eqn:Hexec.
    + destruct (output_file_path config input) as [out|e] eqn:Hout; simpl.
      * split; [by left|]. intros _ _. right. by left.
      * split; [by left|]. intros _ _. right. by left.
    + split; [by left|]. by intros line [=].
  - simpl in Hk. destruct Hfed as [[[=] _]|(k' & inp' & out & [= <-] & Hin & ->)].
    simpl in Hin |- *.
    destruct (get_exec_str c input true) as [line|e] eqn:Hexec.
    2:{ by destruct Hin as [[=]|[]]. }
    destruct (output_file_path c input) as [out0|e] eqn:Hout.
    2:{ by destruct Hin as [[=]|[[=]|[]]]. }
    simpl in Hin |- *.
    assert (Hrest : k1 = 0 /\ Path_name out = Path_name out0 \/
              exists k' inp' out',
                k1 = S k' /\
                In (EOut (S i + k') inp' (Return out'))
                   (loop_events (chain rest (S i) (Path_name out0))) /\
                Path_name out = Path_name out').
    { destruct Hin as [[=]|[Heq|Hin]].
      - left. injection Heq as Hi _ <-. split; [lia|done].
      - right. pose proof (threaded_index_ge _ _ _ (chain_threaded rest (S i) _)
                             _ _ Hin eq_refl) as Hge.
        destruct k1 as [|k2]; [lia|]. exists k2, inp', out.
        replace (S i + k2) with (i + S k2) by lia. by repeat split. }
    destruct (IH (S i) (Path_name out0) k1 config (Path_name out) Hk Hrest)
      as [Hexec' Hout'].
    replace (i + S k1) with (S i + k1) by lia.
    split; [by do 2 right|]. intros line' Hline'. do 2 right. by apply (Hout' line').
Qed.

(** C2.  In the log of a render, the calls are threaded: both methods of
    stage 0 get the caller's pattern as it is; both methods of stage [i + 1]
    get the name, free of any directory, of the path that stage [i] declared
    for the text stage [i] was given; every exec string is asked for in batch
    mode; and the calls with number [i] are calls of the [i]-th stage of the
    collection.  And the calls are made: stage 0 has its exec string asked
    for with the pattern, a stage whose exec string came has its output path
    asked for with the same text, and the stage after one that declared a
    path has its exec string asked for with the name of that path. *)
Theorem render_threads_base_names w self p :
  threaded 0 p (events_of (get_batch_config_str self p) w) /\
  (forall ev inp,
     In ev (events_of (get_batch_config_str self p) w) ->
     stage_index ev = Some 0 -> stage_input ev = Some inp -> inp = p) /\
  (forall ev i inp,
     In ev (events_of (get_batch_config_str self p) w) ->
     stage_index ev = Some (S i) -> stage_input ev = Some inp ->
     exists inp' line out,
       In (EExec i inp' true (Return line)) (events_of (get_batch_config_str self p) w) /\
       In (EOut i inp' (Return out)) (events_of (get_batch_config_str self p) w) /\
       inp = Path_name out /\ occurs slash inp = false) /\
  (forall i inp1 r1 inp2 r2,
     In (EOut i inp1 r1) (events_of (get_batch_config_str self p) w) ->
     In (EOut i inp2 r2) (events_of (get_batch_config_str self p) w) ->
     inp1 = inp2 /\ r1 = r2) /\
  (forall i inp1 bm1 r1 inp2 bm2 r2,
     In (EExec i inp1 bm1 r1) (events_of (get_batch_config_str self p) w) ->
     In (EExec i inp2 bm2 r2) (events_of (get_batch_config_str self p) w) ->
     inp1 = inp2 /\ r1 = r2) /\
  (forall i inp bm r,
     In (EExec i inp bm r) (events_of (get_batch_config_str self p) w) -> bm = true) /\
  (forall items, pipeline_of w self items ->
     (forall i inp bm r,
        In (EExec i inp bm r) (events_of (get_batch_config_str self p) w) ->
        exists config, items !! i = Some config /\ r = get_exec_str config inp bm) /\
     (forall i inp r,
        In (EOut i inp r) (events_of (get_batch_config_str self p) w) ->
        exists config, items !! i = Some config /\ r = output_file_path config inp) /\
     (forall config,
        items !! 0 = Some config ->
        In (EExec 0 p true (get_exec_str config p true))
           (events_of (get_batch_config_str self p) w)) /\
     (forall i inp out config,
        In (EOut i inp (Return out)) (events_of (get_batch_config_str self p) w) ->
        items !! S i = Some config ->
        In (EExec (S i) (Path_name out) true (get_exec_str config (Path_name out) true))
           (events_of (get_batch_config_str self p) w)) /\
     (forall i inp line config,
        In (EExec i inp true (Return line)) (events_of (get_batch_config_str self p) w) ->
        items !! i = Some config ->
        In (EOut i inp (output_file_path config inp))
           (events_of (get_batch_config_str self p) w))).
Proof.
  pose proof (render_events_threaded w self p) as Hth.
  split; [exact Hth|]. split; [|split; [|split; [|split; [|split]]]].
  - intros ev inp Hin Hi Hinp.
    destruct (threaded_fed _ _ _ Hth ev 0 inp Hin Hi Hinp)
      as [[_ ->]|(k & ? & ? & ? & [=] & _)]. done.
  - intros ev i inp Hin Hi Hinp.
    destruct (threaded_fed _ _ _ Hth ev (S i) inp Hin Hi Hinp)
      as [[[=] _]|(k & inp' & line & out & [= ->] & _ & Hexec & Hout & ->)].
    exists inp', line, out. repeat split; try done. apply Path_name_no_slash.
  - by apply (threaded_out_once _ _ _ Hth).
  - by apply (threaded_exec_once _ _ _ Hth).
  - by apply (threaded_batch_mode _ _ _ Hth).
  - intros items Hp. destruct (render_events w self items p Hp) as [Hevs _].
    rewrite Hevs in *. split; [|split; [|split; [|split]]].
    + intros i inp bm r Hin. apply chain_calls in Hin as (c & _ & Hc & Hr).
      exists c. by rewrite Nat.sub_0_r in Hc.
    + intros i inp r Hin. apply chain_calls in Hin as (c & _ & Hc & Hr).
      exists c. by rewrite Nat.sub_0_r in Hc.
    + intros config Hc.
      apply (chain_reaches items 0 p 0 config p Hc). by left.
    + intros i inp out config Hin Hc.
      apply (chain_reaches items 0 p (S i) config (Path_name out) Hc).
      right. by exists i, inp, out.
    + intros i inp line config Hin Hc.
      destruct (threaded_exec_then_out _ _ _ Hth _ _ _ Hin) as [r Hr].
      apply chain_calls in Hr as Hcall. destruct Hcall as (c & _ & Hc' & ->).
      rewrite Nat.sub_0_r in Hc'. by simplify_eq.
Qed.

(** C7.  The documented scenario: stageA then stageB on ["raw*.hex"]. *)
Theorem render_documented_scenario w self :
  pipeline_of w self [stageA; stageB] ->
  result_of (get_batch_config_str self "raw*.hex") w =
    Return "@ Generated by the seabird-processing Python package
stageA -i raw*.hex
stageB -i out_a.cnv" /\
  lines "@ Generated by the seabird-processing Python package
stageA -i raw*.hex
stageB -i out_a.cnv" =
    [config_header_comment; "stageA -i raw*.hex"; "stageB -i out_a.cnv"].
Proof.
  intros Hp. destruct (render_events w self _ "raw*.hex" Hp) as [_ ->].
  split; reflexivity.
Qed.

Lemma render_documented_scenario_witness :
  pipeline_of (list_world [stageA; stageB]) 0 [stageA; stageB] /\
  result_of (get_batch_config_str 0 "raw*.hex") (list_world [stageA; stageB]) =
    Return "@ Generated by the seabird-processing Python package
stageA -i raw*.hex
stageB -i out_a.cnv".
Proof.
  split; [apply list_world_pipeline|].
  apply (render_documented_scenario (list_world [stageA; stageB]) 0).
  apply list_world_pipeline.
Defined.

Lemma render_threads_base_names_witness :
  In (EExec 0 "raw*.hex" true (Return "stageA -i raw*.hex"))
     (events_of (get_batch_config_str 0 "raw*.hex") (list_world [stageA; stageB])) /\
  In (EExec 1 "out_a.cnv" true (Return "stageB -i out_a.cnv"))
     (events_of (get_batch_config_str 0 "raw*.hex") (list_world [stageA; stageB])).
Proof.
  destruct (render_threads_base_names (list_world [stageA; stageB]) 0 "raw*.hex")
    as (_ & _ & _ & _ & _ & _ & Hitems).
  destruct (Hitems [stageA; stageB] (list_world_pipeline _))
    as (_ & _ & Hfirst & Hnext & Hout).
  pose proof (Hfirst stageA eq_refl) as Hexec0.
  pose proof (Hout 0 "raw*.hex" "stageA -i raw*.hex" stageA Hexec0 eq_refl) as Hout0.
  split; [exact Hexec0|].
  exact (Hnext 0 "raw*.hex" "dir/out_a.cnv" stageB Hout0 eq_refl).
Defined.




Lemma chain_snoc items last : forall i input,
  loop_result (chain (items ++ [last]) i input) =
    match loop_result (chain items i input) with
    | Raise e => Raise e
    | Return (ls, final) =>
        match get_exec_str last final true with
        | Raise e => Raise e
        | Return line =>
            match output_file_path last final with
            | Raise e => Raise e
            | Return out => Return (ls ++ [line], Path_name out)
            end
        end
    end.
Proof.
  induction items as [|config rest IH]; intros i input; simpl.
  - destruct (get_exec_str last input true) as [line|e]; [|done].
    by destruct (output_file_path last input) as [out|e].
  - destruct (get_exec_str config input true) as [line|e]; [|done].
    destruct (output_file_path config input) as [out|e]; [|done]. simpl.
    rewrite IH.
    destruct (loop_result (chain rest (S i) (Path_name out))) as [[ls final]|e];
      [|done].
    destruct (get_exec_str last final true) as [line'|e]; [|done].
    by destruct (output_file_path last final) as [out'|e].
Qed.

(** C10, as the code has it.  Render asks every stage it gets an exec string
    from for its output path, with the same text, the last stage too; when
    render returns, every stage was asked.  The name threaded from the last
    stage is not part of the text: two last stages with the same exec strings
    give the same text when render returns.  So a last stage whose output
    path raises makes render raise, after its exec string was produced;
    [no_output_stage] is one. *)
Theorem render_asks_last_output_path w self items last p :
  pipeline_of w self (items ++ [last]) ->
  (forall i inp line,
     In (EExec i inp true (Return line)) (events_of (get_batch_config_str self p) w) ->
     exists r, In (EOut i inp r) (events_of (get_batch_config_str self p) w)) /\
  (forall text,
     result_of (get_batch_config_str self p) w = Return text ->
     (forall i, i <= length items ->
        exists inp out,
          In (EOut i inp (Return out)) (events_of (get_batch_config_str self p) w)) /\
     exists inp out,
       output_file_path last inp = Return out /\
       In (EOut (length items) inp (Return out))
          (events_of (get_batch_config_str self p) w)) /\
  (forall w' last' text text',
     pipeline_of w' self (items ++ [last']) ->
     get_exec_str last' = get_exec_str last ->
     result_of (get_batch_config_str self p) w = Return text ->
     result_of (get_batch_config_str self p) w' = Return text' ->
     text = text') /\
  (forall inp e,
     In (EOut (length items) inp (Raise e)) (events_of (get_batch_config_str self p) w) ->
     result_of (get_batch_config_str self p) w = Raise e /\
     output_file_path last inp = Raise e /\
     exists line, get_exec_str last inp true = Return line /\
                  In (EExec (length items) inp true (Return line))
                     (events_of (get_batch_config_str self p) w)) /\
  (result_of (get_batch_config_str 0 "raw*.hex") (list_world [stageA; no_output_stage]) =
     Raise (StageError "no output directory") /\
   In (EExec 1 "out_a.cnv" true (Return "stageC -i out_a.cnv"))
      (events_of (get_batch_config_str 0 "raw*.hex")
                 (list_world [stageA; no_output_stage]))).
Proof.
  intros Hp. destruct (render_events w self _ p Hp) as [Hevs Hres].
  pose proof (render_events_threaded w self p) as Hth.
  split; [by apply (threaded_exec_then_out _ _ _ Hth)|].
  split; [|split; [|split]].
  - intros text Htext. rewrite Hres in Htext. unfold render_result in Htext.
    destruct (loop_result (chain (items ++ [last]) 0 p)) as [[ls final]|e] eqn:Hloop;
      [|done].
    destruct (chain_returns _ _ _ _ _ Hloop) as (_ & _ & _ & _ & _ & Hout).
    rewrite Hevs. split.
    { intros i Hi. apply (Hout i). rewrite length_app. simpl. lia. }
    destruct (Hout (length items)) as (inp & out & Hin).
    { rewrite length_app. simpl. lia. }
    simpl in Hin. exists inp, out. split; [|done].
    apply chain_calls in Hin as (c & _ & Hc & Hr).
    rewrite Nat.sub_0_r, list_lookup_middle in Hc by done. injection Hc as <-.
    done.
  - intros w' last' text text' Hp' Hsame Htext Htext'.
    destruct (render_events w' self _ p Hp') as [_ Hres'].
    rewrite Hres in Htext. rewrite Hres' in Htext'.
    unfold render_result in Htext, Htext'. rewrite chain_snoc in Htext, Htext'.
    rewrite Hsame in Htext'.
    destruct (loop_result (chain items 0 p)) as [[ls final]|e]; [|done].
    destruct (get_exec_str last final true) as [line|e]; [|done].
    destruct (output_file_path last final) as [out|e]; [|done].
    destruct (output_file_path last' final) as [out'|e]; [|done].
    congruence.
  - intros inp e Hin.
    destruct (threaded_out_after_exec _ _ _ Hth _ _ _ Hin) as [line Hline].
    rewrite Hevs in Hin, Hline.
    apply chain_calls in Hin as Hc. destruct Hc as (c & _ & Hc & Hr).
    rewrite Nat.sub_0_r, list_lookup_middle in Hc by done. injection Hc as <-.
    apply chain_calls in Hline as Hc. destruct Hc as (c' & _ & Hc' & Hr').
    rewrite Nat.sub_0_r, list_lookup_middle in Hc' by done. injection Hc' as <-.
    rewrite Hevs, Hres. split; [|split; [done|by exists line]].
    unfold render_result.
    destruct (loop_result (chain (items ++ [last]) 0 p)) as [[ls final]|e'] eqn:Hloop.
    + destruct (chain_returns _ _ _ _ _ Hloop) as (_ & _ & _ & Hnone & _).
      by apply (proj1 (List.Forall_forall _ _) Hnone) in Hin.
    + destruct (chain_raises _ _ _ _ Hloop) as (pre & ev & Hsplit & Hev & Hpre).
      apply in_split in Hin as (pre' & post' & Hsplit').
      rewrite Hsplit' in Hsplit. symmetry in Hsplit.
      apply (unique_split (fun ev' => raised ev' <> None)) in Hsplit
        as (_ & <- & _); [by simplify_eq/=|..|done].
      * eapply Forall_impl; [exact Hpre|]. intros ev' Hn Hc. by apply Hc.
      * constructor.
  - split; [reflexivity|]. vm_compute. right. right. by left.
Qed.

(** ** Run *)

(** What render returns depends on the heap only. *)
Lemma render_result_of w self p :
  result_of (get_batch_config_str self p) w =
    match heap w !! self with
    | Some (BatchObj stages) =>
        match heap w !! stages with
        | Some (ListObj items) | Some (IterObj items) => render_result items p
        | _ => Raise (TypeError "object is not iterable")
        end
    | _ => Raise (TypeError "not a Batch")
    end.
Proof.
  destruct (heap w !! self) as [[l0|l0|stages]|] eqn:Hself.
  1,2,4: by unfold result_of, get_batch_config_str, bind, getattr_stages; rewrite Hself.
  destruct (heap w !! stages) as [[items|items|s0]|] eqn:Hstages.
  - unfold result_of. rewrite (render_list w self items p); [done|]. by exists stages.
  - unfold result_of. by rewrite (render_iterator w self stages items p).
  - unfold result_of, get_batch_config_str, bind, getattr_stages, iter.
    by rewrite Hself, Hstages.
  - unfold result_of, get_batch_config_str, bind, getattr_stages, iter.
    by rewrite Hself, Hstages.
Qed.

Lemma render_result_same_heap w w' self p :
  heap w' = heap w ->
  result_of (get_batch_config_str self p) w' =
    result_of (get_batch_config_str self p) w.
Proof. intros Hh. by rewrite !render_result_of, Hh. Qed.

Lemma after_render_events os name base r :
  Forall file_event_only (fst (after_render os name base r)).
Proof.
  unfold after_render, file_event_only. destruct r as [text|e]; [|constructor].
  destruct (write_error os name text); [by repeat constructor|].
  destruct (flush_error os name text).
  - destruct (String.eqb text ""); [by repeat constructor|].
    destruct (close_error os name text); by repeat constructor.
  - by repeat constructor.
Qed.

Lemma after_render_spawns os name base r :
  forall cmd config pr,
    In (ESpawn cmd config pr) (fst (after_render os name base r)) ->
    List.filter is_spawn (fst (after_render os name base r)) = [ESpawn cmd config pr] /\
    exists text,
      r = Return text /\ cmd = ["sbebatch"; name] /\ config = Some text /\
      pr = run_process os cmd (<[name := text]> base) /\
      In (EWrite name text None) (fst (after_render os name base r)) /\
      In (EFlush name None) (fst (after_render os name base r)) /\
      snd (after_render os name base r) =
        match pr with
        | NotStarted e => Raise e
        | Exited returncode =>
            if (returncode =? 0)%Z then Return tt
            else Raise (CalledProcessError returncode cmd)
        end.
Proof.
  intros cmd config pr. unfold after_render. destruct r as [text|e]; [|done].
  destruct (write_error os name text); [by intros [[=]|[]]|].
  destruct (flush_error os name text).
  - destruct (String.eqb text ""); [by intros [[=]|[[=]|[]]]|].
    destruct (close_error os name text); by intros [[=]|[[=]|[[=]|[]]]].
  - simpl. intros [[=]|[[=]|[[= <- <- <-]|[]]]]. split; [done|].
    exists text. repeat split; try done.
    + by left.
    + right. by left.
Qed.

Lemma stage_events_no_spawn (evs : list event) :
  Forall (fun ev => is_Some (stage_index ev) /\ is_spawn ev = false) evs ->
  List.filter is_spawn evs = [].
Proof.
  induction 1 as [|ev evs [_ Hev] _ IH]; [done|]. simpl. by rewrite Hev.
Qed.

Lemma render_same_heap w w' self p :
  heap w' = heap w ->
  exists r h evs,
    get_batch_config_str self p w =
      (r, World h (tmpdir w) (buffers w) (log w ++ evs)) /\
    get_batch_config_str self p w' =
      (r, World h (tmpdir w') (buffers w') (log w' ++ evs)).
Proof.
  intros Hh.
  assert (Hnot : (forall items, ~ pipeline_of w self items) ->
    exists r h evs,
      get_batch_config_str self p w =
        (r, World h (tmpdir w) (buffers w) (log w ++ evs)) /\
      get_batch_config_str self p w' =
        (r, World h (tmpdir w') (buffers w') (log w' ++ evs))).
  { intros Hnone.
    assert (Hnone' : forall items, ~ pipeline_of w' self items).
    { intros items Hp. apply (Hnone items). unfold pipeline_of, list_pipeline,
        iterator_pipeline in *. by rewrite Hh in Hp. }
    destruct (render_not_a_pipeline w self p Hnone) as [what Heq].
    destruct (render_not_a_pipeline w' self p Hnone') as [what' Heq'].
    pose proof (render_result_same_heap w w' self p Hh) as Hsame.
    unfold result_of in Hsame. rewrite Heq, Heq' in Hsame. simpl in Hsame.
    exists (Raise (TypeError what)), (heap w), []. rewrite !app_nil_r.
    split; [by destruct w|]. rewrite Heq', Hsame, <- Hh. by destruct w'. }
  destruct (heap w !! self) as [[l0|l0|stages]|] eqn:Hself.
  1,2,4: apply Hnot; intros items [(s & Hs & _)|(s & Hs & _)]; congruence.
  destruct (heap w !! stages) as [[items|items|s0]|] eqn:Hstages.
  - exists (render_result items p), (heap w), (loop_events (chain items 0 p)).
    split; [apply render_list; by exists stages|].
    rewrite (render_list w' self items p); [by rewrite Hh|].
    exists stages. by rewrite Hh.
  - eexists (render_result items p), _, (loop_events (chain items 0 p)).
    split; [by apply render_iterator|].
    rewrite (render_iterator w' self stages items p); [by rewrite Hh|by rewrite Hh..].
  - apply Hnot. intros items [(s & Hs & Hs')|(s & Hs & Hs')]; congruence.
  - apply Hnot. intros items [(s & Hs & Hs')|(s & Hs & Hs')]; congruence.
Qed.

(** The log of a call, whole. *)
Lemma call_events os w self p :
  (exists e, result_of (NamedTemporaryFile os ".txt") w = Raise e /\
             result_of (__call__ os self p) w = Raise e /\
             world_after (__call__ os self p) w = w /\
             events_of (__call__ os self p) w = []) \/
  (exists name r evs,
     tmpdir w !! name = None /\
     result_of (NamedTemporaryFile os ".txt") w = Return name /\
     r = result_of (get_batch_config_str self p) w /\
     evs = events_of (get_batch_config_str self p) w /\
     heap (world_after (__call__ os self p) w) =
       heap (world_after (get_batch_config_str self p) w) /\
     tmpdir (world_after (__call__ os self p) w) =
       (if leaks os name r then <[name := ""]> (tmpdir w) else tmpdir w) /\
     buffers (world_after (__call__ os self p) w) = delete name (buffers w) /\
     result_of (__call__ os self p) w = snd (after_render os name (tmpdir w) r) /\
     events_of (__call__ os self p) w =
       ECreate name :: evs ++ fst (after_render os name (tmpdir w) r) ++
       closing os name r).
Proof.
  destruct (call_cases os w self p)
    as [(e & Hcreate & Hcall)|(name & r & h & evs & Hfree & Hcreate & Hrender & _ & _ & Hcall)].
  - left. exists e. unfold events_of, result_of, world_after. rewrite Hcreate, Hcall.
    simpl. repeat split. apply events_since_same.
  - right. exists name, r, evs.
    destruct (render_same_heap w (create_file name w) self p eq_refl)
      as (r' & h' & evs' & Hw & Hcf).
    rewrite Hcf in Hrender. injection Hrender as -> -> Hevs.
    apply app_inv_head in Hevs as ->.
    unfold events_of, result_of, world_after. rewrite Hcreate, Hcall, Hw. simpl.
    rewrite !events_since_app. by repeat split.
Qed.

Lemma render_events_stage w self p :
  Forall (fun ev => is_Some (stage_index ev) /\ is_spawn ev = false)
         (events_of (get_batch_config_str self p) w).
Proof.
  destruct (render_frame w self p) as (r & h & evs & Heq & _ & Hcases).
  unfold events_of, world_after. rewrite Heq. simpl. rewrite events_since_app.
  destruct Hcases as [(what & _ & -> & _)|(items & _ & _ & ->)].
  - constructor.
  - apply chain_stage_events.
Qed.

Lemma in_call_events (ev : event) os name r evs tail :
  In ev (ECreate name :: evs ++ tail ++ closing os name r) ->
  ev = ECreate name \/ In ev evs \/ In ev tail \/ ev = EUnlink name.
Proof.
  intros [<-|Hin]; [by left|].
  apply in_app_or in Hin as [Hin|Hin]; [by right; left|].
  apply in_app_or in Hin as [Hin|Hin]; [by right; right; left|].
  unfold closing in Hin. destruct (leaks os name r); [done|].
  destruct Hin as [<-|[]]. by right; right; right.
Qed.

Lemma last_call_events name (evs tail : list event) :
  last (ECreate name :: evs ++ tail ++ [EUnlink name]) = Some (EUnlink name).
Proof.
  change (ECreate name :: evs ++ tail ++ [EUnlink name])
    with ((ECreate name :: evs) ++ tail ++ [EUnlink name]).
  rewrite !app_assoc. apply last_snoc.
Qed.

Lemma filter_spawn_call_events os name r (evs tail : list event) :
  List.filter is_spawn (ECreate name :: evs ++ tail ++ closing os name r) =
    List.filter is_spawn evs ++ List.filter is_spawn tail.
Proof.
  simpl. rewrite !List.filter_app. unfold closing.
  destruct (leaks os name r); simpl; by rewrite app_nil_r.
Qed.

(** A call that got as far as the child, or whose render raised, closes its
    file without trouble. *)
Lemma spawn_no_leak os name base r cmd config pr :
  In (ESpawn cmd config pr) (fst (after_render os name base r)) ->
  leaks os name r = false.
Proof.
  unfold after_render, leaks. destruct r as [text|e]; [|done].
  destruct (write_error os name text); [done|].
  destruct (flush_error os name text); [|done].
  destruct (String.eqb text ""); [by intros [[=]|[[=]|[]]]|].
  destruct (close_error os name text); by intros [[=]|[[=]|[[=]|[]]]].
Qed.





(** C4.  When the child process of a call exits with a status other than
    zero, the call raises [CalledProcessError] with that status and the
    command, which is [sbebatch] and the name of the temporary file; the
    child was started once; and the file, written and flushed before the
    child ran, is unlinked when the error reaches the caller. *)
Theorem call_reports_process_failure os w self p cmd config returncode :
  In (ESpawn cmd config (Exited returncode)) (events_of (__call__ os self p) w) ->
  returncode <> 0%Z ->
  result_of (__call__ os self p) w = Raise (CalledProcessError returncode cmd) /\
  List.filter is_spawn (events_of (__call__ os self p) w) =
    [ESpawn cmd config (Exited returncode)] /\
  exists name text,
    cmd = ["sbebatch"; name] /\
    config = Some text /\
    result_of (get_batch_config_str self p) w = Return text /\
    In (ECreate name) (events_of (__call__ os self p) w) /\
    In (EWrite name text None) (events_of (__call__ os self p) w) /\
    In (EFlush name None) (events_of (__call__ os self p) w) /\
    last (events_of (__call__ os self p) w) = Some (EUnlink name) /\
    tmpdir (world_after (__call__ os self p) w) !! name = None /\
    tmpdir (world_after (__call__ os self p) w) = tmpdir w.
Proof.
  intros Hspawn Hstatus.
  destruct (call_events os w self p)
    as [(e & _ & _ & Hw & Hevs)
       |(name & r & evs & Hfree & _ & Hr & Hevs0 & _ & Ht & Hb & Hres & Hevs)].
  - by rewrite Hevs in Hspawn.
  - rewrite Hevs in Hspawn |- *. rewrite Ht, Hres.
    pose proof (render_events_stage w self p) as Hst. rewrite <- Hevs0 in Hst.
    apply in_call_events in Hspawn as [[=]|[Hin|[Hin|[=]]]].
    { by apply (proj1 (List.Forall_forall _ _) Hst) in Hin as [_ [=]]. }
    pose proof (filter_spawn_call_events os name r evs
                  (fst (after_render os name (tmpdir w) r))) as Hfilter.
    pose proof (spawn_no_leak _ _ _ _ _ _ _ Hin) as Hleak.
    unfold closing in *. rewrite Hleak in *.
    destruct (after_render_spawns _ _ _ _ _ _ _ Hin)
      as (Hone & text & -> & -> & -> & Hpr & Hwrite & Hflush & ->).
    apply Z.eqb_neq in Hstatus. rewrite Hstatus.
    split; [done|]. split.
    + rewrite Hfilter, Hone.
      by rewrite (stage_events_no_spawn _ Hst).
    + exists name, text. repeat split; try done.
      * by left.
      * right. apply in_or_app. right. apply in_or_app. by left.
      * right. apply in_or_app. right. apply in_or_app. by left.
      * apply last_call_events.
Qed.

Lemma call_reports_process_failure_witness :
  result_of (__call__ (plain_os 3) 0 "raw*.hex") (list_world [stageA; stageB]) =
    Raise (CalledProcessError 3 ["sbebatch"; "tmpk3x9q2.txt"]).
Proof.
  apply (call_reports_process_failure (plain_os 3) (list_world [stageA; stageB]) 0
           "raw*.hex" ["sbebatch"; "tmpk3x9q2.txt"]
           (Some "@ Generated by the seabird-processing Python package
stageA -i raw*.hex
stageB -i out_a.cnv") 3).
  - vm_compute. do 7 right. left. reflexivity.
  - lia.
Defined.

Lemma render_raise_split w self p pre ev post e :
  events_of (get_batch_config_str self p) w = pre ++ ev :: post ->
  raised ev = Some e ->
  result_of (get_batch_config_str self p) w = Raise e /\
  post = [] /\
  Forall (fun ev' => raised ev' = None) pre.
Proof.
  intros Hevs Hev.
  destruct (render_frame w self p) as (r & h & evs & Heq & _ & Hcases).
  unfold events_of, result_of, world_after in *. rewrite Heq in *. simpl in *.
  rewrite events_since_app in Hevs.
  destruct Hcases as [(what & _ & -> & _)|(items & _ & -> & ->)].
  { by destruct pre. }
  unfold render_result.
  destruct (loop_result (chain items 0 p)) as [[ls final]|e'] eqn:Hloop.
  - destruct (chain_returns _ _ _ _ _ Hloop) as (_ & _ & _ & Hnone & _).
    rewrite Hevs in Hnone. apply Forall_app in Hnone as [_ Hnone].
    inversion Hnone; congruence.
  - destruct (chain_raises _ _ _ _ Hloop) as (pre' & ev' & Hsplit & Hev' & Hpre').
    rewrite Hevs in Hsplit. symmetry in Hsplit.
    apply (unique_split (fun x => raised x <> None)) in Hsplit as (-> & -> & ->).
    + split; [congruence|done].
    + eapply Forall_impl; [exact Hpre'|]. intros x Hn Hc. by apply Hc.
    + constructor.
    + congruence.
Qed.

Lemma call_raise_split os w self p pre ev post e :
  events_of (__call__ os self p) w = pre ++ ev :: post ->
  raised ev = Some e ->
  result_of (__call__ os self p) w = Raise e /\
  result_of (get_batch_config_str self p) w = Raise e /\
  exists name pre1,
    pre = ECreate name :: pre1 /\ post = [EUnlink name] /\
    events_of (get_batch_config_str self p) w = pre1 ++ [ev].
Proof.
  intros Hevs Hev.
  destruct (call_events os w self p)
    as [(e' & _ & _ & _ & Hnil)
       |(name & r & evs & _ & _ & Hr & Hevs0 & _ & _ & _ & Hres & Hall)].
  { rewrite Hnil in Hevs. by destruct pre. }
  assert (Hin : In ev (events_of (__call__ os self p) w)).
  { rewrite Hevs. apply in_or_app. right. by left. }
  rewrite Hall in Hin. apply in_call_events in Hin as [-> |[Hin|[Hin| ->]]]; try done.
  2:{ pose proof (after_render_events os name (tmpdir w) r) as Hfile.
      apply (proj1 (List.Forall_forall _ _) Hfile) in Hin as (Hnone & _).
      congruence. }
  apply in_split in Hin as (pre1 & post1 & Hsplit). rewrite Hevs0 in Hsplit.
  destruct (render_raise_split _ _ _ _ _ _ _ Hsplit Hev) as (Hraise & -> & Hpre1).
  rewrite Hraise in Hr. subst r. simpl in Hres, Hall.
  rewrite Hevs0, Hsplit in Hall. rewrite Hall in Hevs.
  assert (Hshape : ECreate name :: (pre1 ++ [ev]) ++ [EUnlink name] =
                   (ECreate name :: pre1) ++ ev :: [EUnlink name]).
  { simpl. by rewrite <- app_assoc. }
  unfold closing in Hevs. simpl in Hevs.
  change (ECreate name :: (pre1 ++ [ev]) ++ [EUnlink name] = pre ++ ev :: post) in Hevs.
  rewrite Hshape in Hevs.
  apply (unique_split (fun x => raised x <> None)) in Hevs as (-> & _ & ->).
  - split; [done|]. split; [done|]. by exists name, pre1.
  - constructor; [by intros Hc; apply Hc|].
    eapply Forall_impl; [exact Hpre1|]. intros x Hn Hc. by apply Hc.
  - repeat constructor. by intros Hc; apply Hc.
  - congruence.
Qed.

(** A stage that raises on the text it is given makes the loop end there. *)
Lemma render_stage_raises w self items p k config inp e :
  pipeline_of w self items ->
  items !! k = Some config ->
  (k = 0 /\ inp = p \/
   exists k' inp' out,
     k = S k' /\
     In (EOut k' inp' (Return out)) (events_of (get_batch_config_str self p) w) /\
     inp = Path_name out) ->
  (get_exec_str config inp true = Raise e \/
   (exists line, get_exec_str config inp true = Return line) /\
   output_file_path config inp = Raise e) ->
  exists ev,
    In ev (events_of (get_batch_config_str self p) w) /\
    raised ev = Some e /\ stage_index ev = Some k /\ stage_input ev = Some inp.
Proof.
  intros Hp Hk Hfed Hraise.
  destruct (render_events w self items p Hp) as [Hevs _]. rewrite Hevs in *.
  destruct (chain_reaches items 0 p k config inp Hk Hfed) as [Hexec Hout].
  destruct Hraise as [Hraise|[[line Hline] Hraise]].
  - rewrite Hraise in Hexec. by eexists.
  - specialize (Hout line Hline). rewrite Hraise in Hout. by eexists.
Qed.

(** C6.  When a call of a stage method raises, render raises that very
    exception and calls nothing after it; so does a call of the pipeline,
    where the only thing that follows is the removal of the temporary file.
    The stage calls made before are of the same stage or of earlier ones.
    And the call is made: a stage that the loop gets to (the first one, or
    one whose predecessor declared a path) and whose exec-string function, or
    else whose output-path function, raises for the text it is then given,
    makes render raise that exception as the last thing it does, and makes a
    call of the pipeline raise it once its temporary file is created. *)
Theorem stage_error_propagates os w self p :
  (forall pre ev post e,
     raised ev = Some e ->
     (events_of (get_batch_config_str self p) w = pre ++ ev :: post ->
      result_of (get_batch_config_str self p) w = Raise e /\
      post = [] /\
      forall ev' j k,
        In ev' pre -> stage_index ev' = Some j -> stage_index ev = Some k -> j <= k) /\
     (events_of (__call__ os self p) w = pre ++ ev :: post ->
      result_of (__call__ os self p) w = Raise e /\
      (exists name, post = [EUnlink name]) /\
      Forall (fun ev' => stage_index ev' = None) post /\
      forall ev' j k,
        In ev' pre -> stage_index ev' = Some j -> stage_index ev = Some k -> j <= k)) /\
  (forall items k config inp e,
     pipeline_of w self items ->
     items !! k = Some config ->
     (k = 0 /\ inp = p \/
      exists k' inp' out,
        k = S k' /\
        In (EOut k' inp' (Return out)) (events_of (get_batch_config_str self p) w) /\
        inp = Path_name out) ->
     (get_exec_str config inp true = Raise e \/
      (exists line, get_exec_str config inp true = Return line) /\
      output_file_path config inp = Raise e) ->
     result_of (get_batch_config_str self p) w = Raise e /\
     (exists ev,
        last (events_of (get_batch_config_str self p) w) = Some ev /\
        raised ev = Some e /\ stage_index ev = Some k /\ stage_input ev = Some inp) /\
     (forall name,
        result_of (NamedTemporaryFile os ".txt") w = Return name ->
        result_of (__call__ os self p) w = Raise e /\
        events_of (__call__ os self p) w =
          ECreate name :: events_of (get_batch_config_str self p) w ++ [EUnlink name])).
Proof.
  split.
  - intros pre ev post e Hev. split.
    + intros Hevs.
      destruct (render_raise_split _ _ _ _ _ _ _ Hevs Hev) as (Hres & -> & _).
      repeat split; try done.
      apply (threaded_sorted _ _ _ (render_events_threaded w self p) _ _ _ Hevs).
    + intros Hevs.
      destruct (call_raise_split _ _ _ _ _ _ _ _ Hevs Hev)
        as (Hres & _ & name & pre1 & -> & -> & Hsplit).
      split; [done|]. split; [by exists name|]. split; [by repeat constructor|].
      intros ev' j k [<-|Hin] Hj Hk; [done|].
      by apply (threaded_sorted _ _ _ (render_events_threaded w self p) _ _ _ Hsplit ev').
  - intros items k config inp e Hp Hk Hfed Hraise.
    destruct (render_stage_raises w self items p k config inp e Hp Hk Hfed Hraise)
      as (ev & Hin & Hev & Hi & Hinp).
    apply in_split in Hin as (pre & post & Hsplit).
    destruct (render_raise_split _ _ _ _ _ _ _ Hsplit Hev) as (Hres & -> & _).
    split; [exact Hres|]. split.
    { exists ev. rewrite Hsplit. by rewrite last_snoc. }
    intros name Hname.
    destruct (call_events os w self p)
      as [(e' & Hfail & _)
         |(name' & r & evs & _ & Hname' & Hr & Hevs & _ & _ & _ & Hcall & Hall)];
      [congruence|].
    assert (name' = name) as -> by congruence.
    rewrite Hres in Hr. subst r evs. simpl in Hcall, Hall.
    by rewrite Hcall, Hall.
Qed.

Lemma stage_error_propagates_witness :
  result_of (get_batch_config_str 0 "raw*.hex") (list_world [stageA; rejecting_stage]) =
    Raise (StageError "unsupported input") /\
  result_of (__call__ (plain_os 0) 0 "raw*.hex") (list_world [stageA; rejecting_stage]) =
    Raise (StageError "unsupported input") /\
  result_of (get_batch_config_str 0 "raw*.hex") (list_world [no_output_stage; stageB]) =
    Raise (StageError "no output directory") /\
  result_of (__call__ (plain_os 0) 0 "raw*.hex") (list_world [stageA; no_output_stage]) =
    Raise (StageError "no output directory").
Proof.
  split; [|split; [|split]].
  - apply (proj1 (proj1 (stage_error_propagates (plain_os 0)
             (list_world [stageA; rejecting_stage]) 0 "raw*.hex")
             [EExec 0 "raw*.hex" true (Return "stageA -i raw*.hex");
              EOut 0 "raw*.hex" (Return "dir/out_a.cnv")]
             (EExec 1 "out_a.cnv" true (Raise (StageError "unsupported input")))
             [] (StageError "unsupported input") eq_refl)).
    vm_compute. reflexivity.
  - apply (proj2 (proj1 (stage_error_propagates (plain_os 0)
             (list_world [stageA; rejecting_stage]) 0 "raw*.hex")
             [ECreate "tmpk3x9q2.txt";
              EExec 0 "raw*.hex" true (Return "stageA -i raw*.hex");
              EOut 0 "raw*.hex" (Return "dir/out_a.cnv")]
             (EExec 1 "out_a.cnv" true (Raise (StageError "unsupported input")))
             [EUnlink "tmpk3x9q2.txt"] (StageError "unsupported input") eq_refl)).
    vm_compute. reflexivity.
  - apply (proj2 (stage_error_propagates (plain_os 0)
             (list_world [no_output_stage; stageB]) 0 "raw*.hex")
             [no_output_stage; stageB] 0 no_output_stage "raw*.hex"
             (StageError "no output directory") (list_world_pipeline _) eq_refl).
    + by left.
    + right. split; [by eexists|reflexivity].
  - destruct (proj2 (stage_error_propagates (plain_os 0)
                (list_world [stageA; no_output_stage]) 0 "raw*.hex")
                [stageA; no_output_stage] 1 no_output_stage "out_a.cnv"
                (StageError "no output directory") (list_world_pipeline _) eq_refl)
      as (_ & _ & Hcall).
    + right. exists 0, "raw*.hex", "dir/out_a.cnv". split; [reflexivity|].
      split; [|reflexivity]. vm_compute. right. left. reflexivity.
    + right. split; [by eexists|reflexivity].
    + apply (Hcall "tmpk3x9q2.txt"). vm_compute. reflexivity.
Defined.

(** C8.  On a pipeline without stages, render calls no stage and returns the
    header alone, which holds no newline.  A call of such a pipeline, once
    its temporary file is created and takes the write and the flush, does
    exactly this: it creates the file, writes the header, flushes, starts
    [sbebatch] once on the file, which then holds the header and nothing
    else, and unlinks the file. *)
Theorem empty_pipeline_is_header_only os w self p name :
  pipeline_of w self [] ->
  (result_of (get_batch_config_str self p) w = Return config_header_comment /\
   events_of (get_batch_config_str self p) w = [] /\
   lines config_header_comment = [config_header_comment]) /\
  (result_of (NamedTemporaryFile os ".txt") w = Return name ->
   write_error os name config_header_comment = None ->
   flush_error os name config_header_comment = None ->
   events_of (__call__ os self p) w =
     [ECreate name;
      EWrite name config_header_comment None;
      EFlush name None;
      ESpawn ["sbebatch"; name] (Some config_header_comment)
        (run_process os ["sbebatch"; name]
           (<[name := config_header_comment]> (tmpdir w)));
      EUnlink name] /\
   length (List.filter is_spawn (events_of (__call__ os self p) w)) = 1).
Proof.
  intros Hp. destruct (render_events w self [] p Hp) as [Hevs Hres].
  split; [by rewrite Hevs, Hres|].
  intros Hcreate Hwrite Hflush.
  destruct (call_events os w self p)
    as [(e & Hfail & _)
       |(name' & r & evs & _ & Hname & Hr & Hevs0 & _ & _ & _ & _ & Hall)].
  { congruence. }
  assert (name' = name) as -> by congruence.
  rewrite Hall, Hevs0, Hevs, Hr, Hres. unfold render_result, closing, leaks. simpl.
  change (join nl [config_header_comment]) with config_header_comment.
  by rewrite Hwrite, Hflush.
Qed.

Lemma empty_pipeline_is_header_only_witness :
  events_of (__call__ (plain_os 0) 0 "raw*.hex") (list_world []) =
    [ECreate "tmpk3x9q2.txt";
     EWrite "tmpk3x9q2.txt" config_header_comment None;
     EFlush "tmpk3x9q2.txt" None;
     ESpawn ["sbebatch"; "tmpk3x9q2.txt"] (Some config_header_comment) (Exited 0);
     EUnlink "tmpk3x9q2.txt"].
Proof.
  apply (empty_pipeline_is_header_only (plain_os 0) (list_world []) 0 "raw*.hex"
           "tmpk3x9q2.txt" (list_world_pipeline [])).
  - vm_compute. reflexivity.
  - reflexivity.
  - reflexivity.
Defined.

(** C9, as the code has it.  After a render or a call, the [stages]
    attribute of the instance refers to what it referred to.  When that is a
    list, the list is as it was and a later render returns what it would have
    returned before. *)
Theorem call_keeps_stage_list os w self p :
  heap (world_after (get_batch_config_str self p) w) !! self = heap w !! self /\
  heap (world_after (__call__ os self p) w) !! self = heap w !! self /\
  forall items,
    list_pipeline w self items ->
    heap (world_after (get_batch_config_str self p) w) = heap w /\
    heap (world_after (__call__ os self p) w) = heap w /\
    list_pipeline (world_after (get_batch_config_str self p) w) self items /\
    list_pipeline (world_after (__call__ os self p) w) self items /\
    forall q,
      result_of (get_batch_config_str self q)
                (world_after (get_batch_config_str self p) w) =
        result_of (get_batch_config_str self q) w /\
      result_of (get_batch_config_str self q)
                (world_after (__call__ os self p) w) =
        result_of (get_batch_config_str self q) w.
Proof.
  assert (Hcall : heap (world_after (__call__ os self p) w) = heap w \/
                  heap (world_after (__call__ os self p) w) =
                    heap (world_after (get_batch_config_str self p) w)).
  { destruct (call_events os w self p)
      as [(e & _ & _ & -> & _)|(name & r & evs & _ & _ & _ & _ & Hh & _)];
      [by left|by right]. }
  assert (Hself : heap (world_after (get_batch_config_str self p) w) !! self =
                  heap w !! self).
  { destruct (render_frame w self p) as (r & h & evs & Heq & Hh & _).
    unfold world_after. by rewrite Heq. }
  split; [exact Hself|]. split; [by destruct Hcall as [-> | ->]|].
  intros items Hl.
  assert (Hrender : heap (world_after (get_batch_config_str self p) w) = heap w).
  { unfold world_after. by rewrite (render_list w self items p Hl). }
  assert (Hrun : heap (world_after (__call__ os self p) w) = heap w).
  { by destruct Hcall as [-> | ->]. }
  split; [exact Hrender|]. split; [exact Hrun|].
  unfold list_pipeline. rewrite Hrender, Hrun. split; [exact Hl|]. split; [exact Hl|].
  intros q. split; by apply render_result_same_heap.
Qed.

Lemma call_keeps_stage_list_witness :
  heap (world_after (__call__ (plain_os 0) 0 "raw*.hex") (list_world [stageA; stageB])) =
    heap (list_world [stageA; stageB]).
Proof.
  assert (Hl : list_pipeline (list_world [stageA; stageB]) 0 [stageA; stageB]).
  { exists 1. split; reflexivity. }
  destruct (call_keeps_stage_list (plain_os 0) (list_world [stageA; stageB]) 0
              "raw*.hex") as (_ & _ & Hlist).
  destruct (Hlist [stageA; stageB] Hl) as (_ & Hrun & _). exact Hrun.
Defined.

(** C9 as stated fails when the stages were given as a one-shot iterator: a
    call drains it, and a later render returns the header alone. *)
Lemma call_drains_iterator_counterexample :
  heap (iterator_world [stageA; stageB]) !! 1 = Some (IterObj [stageA; stageB]) /\
  heap (world_after (__call__ (plain_os 0) 0 "raw*.hex")
                    (iterator_world [stageA; stageB])) !! 1 = Some (IterObj []) /\
  result_of (get_batch_config_str 0 "raw*.hex") (iterator_world [stageA; stageB]) =
    Return "@ Generated by the seabird-processing Python package
stageA -i raw*.hex
stageB -i out_a.cnv" /\
  result_of (get_batch_config_str 0 "raw*.hex")
            (world_after (__call__ (plain_os 0) 0 "raw*.hex")
                         (iterator_world [stageA; stageB])) =
    Return "@ Generated by the seabird-processing Python package".
Proof. repeat split; vm_compute; reflexivity. Qed.

Lemma render_asks_last_output_path_witness :
  result_of (get_batch_config_str 0 "raw*.hex") (list_world [stageA; no_output_stage]) =
    Raise (StageError "no output directory") /\
  output_file_path no_output_stage "out_a.cnv" =
    Raise (StageError "no output directory") /\
  exists line,
    get_exec_str no_output_stage "out_a.cnv" true = Return line /\
    In (EExec 1 "out_a.cnv" true (Return line))
       (events_of (get_batch_config_str 0 "raw*.hex")
                  (list_world [stageA; no_output_stage])).
Proof.
  destruct (render_asks_last_output_path (list_world [stageA; no_output_stage]) 0
              [stageA] no_output_stage "raw*.hex"
              (list_world_pipeline [stageA; no_output_stage]))
    as (_ & _ & _ & Hraise & _).
  apply (Hraise "out_a.cnv" (StageError "no output directory")).
  vm_compute. do 3 right. left. reflexivity.
Defined.

(** C10 as stated fails on a pipeline whose only stage rejects its input:
    render stops at the exec string, and the output path of that stage is
    never asked for. *)
Lemma render_skips_output_path_counterexample :
  pipeline_of (list_world [rejecting_stage]) 0 [rejecting_stage] /\
  events_of (get_batch_config_str 0 "raw*.hex") (list_world [rejecting_stage]) =
    [EExec 0 "raw*.hex" true (Raise (StageError "unsupported input"))] /\
  forall i inp r,
    ~ In (EOut i inp r)
         (events_of (get_batch_config_str 0 "raw*.hex") (list_world [rejecting_stage])).
Proof.
  split; [apply list_world_pipeline|]. split; [reflexivity|].
  intros i inp r Hin. vm_compute in Hin. by destruct Hin as [[=]|[]].
Qed.

(** * Further properties of the module *)

(** ** The order of things in a call *)

Lemma call_events_head os w self p pre ev post :
  events_of (__call__ os self p) w = pre ++ ev :: post ->
  is_Some (stage_index ev) ->
  exists name pre', pre = ECreate name :: pre'.
Proof.
  intros Hevs [i Hi].
  destruct (call_events os w self p)
    as [(e & _ & _ & _ & Hnil)|(name & r & evs & _ & _ & _ & _ & _ & _ & _ & _ & Hall)].
  - rewrite Hnil in Hevs. by destruct pre.
  - rewrite Hall in Hevs. destruct pre as [|x pre']; simplify_eq/=. by eauto.
Qed.

(** X1.  A call creates its temporary file before it renders.  When the file
    cannot be created the call raises what the creation raised, calls no
    stage and leaves the store as it was; when it can, every stage call comes
    after the creation, and a render that raises has had a file created and
    removed around it, with nothing written. *)
Theorem call_creates_file_before_render os w self p :
  (forall e, result_of (NamedTemporaryFile os ".txt") w = Raise e ->
     result_of (__call__ os self p) w = Raise e /\
     world_after (__call__ os self p) w = w) /\
  (forall pre ev post,
     events_of (__call__ os self p) w = pre ++ ev :: post ->
     is_Some (stage_index ev) ->
     exists name pre', pre = ECreate name :: pre') /\
  (forall name e,
     result_of (NamedTemporaryFile os ".txt") w = Return name ->
     result_of (get_batch_config_str self p) w = Raise e ->
     result_of (__call__ os self p) w = Raise e /\
     events_of (__call__ os self p) w =
       ECreate name :: events_of (get_batch_config_str self p) w ++ [EUnlink name]).
Proof.
  split; [|split].
  - intros e Hfail.
    destruct (call_events os w self p)
      as [(e' & Hcreate & Hres & Hw & _)|(name & r & evs & _ & Hname & _)];
      [|congruence].
    split; [congruence|done].
  - apply call_events_head.
  - intros name e Hname Hraise.
    destruct (call_events os w self p)
      as [(e' & Hcreate & _)
         |(name' & r & evs & _ & Hname' & Hr & Hevs & _ & _ & _ & Hres & Hall)];
      [congruence|].
    assert (name' = name) as -> by congruence.
    rewrite Hraise in Hr. subst r evs. simpl in Hres, Hall. by rewrite Hres, Hall.
Qed.

Lemma call_creates_file_before_render_witness :
  result_of (__call__ no_tmpdir_os 0 "raw*.hex") (list_world [stageA; stageB]) =
    Raise (FileNotFoundError "No usable temporary directory found") /\
  events_of (__call__ (plain_os 0) 0 "raw*.hex") (list_world [rejecting_stage]) =
    [ECreate "tmpk3x9q2.txt";
     EExec 0 "raw*.hex" true (Raise (StageError "unsupported input"));
     EUnlink "tmpk3x9q2.txt"].
Proof.
  split.
  - apply (proj1 (call_creates_file_before_render no_tmpdir_os
                    (list_world [stageA; stageB]) 0 "raw*.hex")).
    reflexivity.
  - apply (proj2 (proj2 (call_creates_file_before_render (plain_os 0)
                    (list_world [rejecting_stage]) 0 "raw*.hex"))
             "tmpk3x9q2.txt" (StageError "unsupported input")).
    + vm_compute. reflexivity.
    + reflexivity.
Defined.

(** ** When a call succeeds, and what the child is given *)

Lemma in_call_spawn os w self p cmd config pr :
  In (ESpawn cmd config pr) (events_of (__call__ os self p) w) ->
  exists name,
    result_of (NamedTemporaryFile os ".txt") w = Return name /\
    tmpdir w !! name = None /\
    In (ESpawn cmd config pr)
       (fst (after_render os name (tmpdir w)
               (result_of (get_batch_config_str self p) w))) /\
    result_of (__call__ os self p) w =
      snd (after_render os name (tmpdir w)
             (result_of (get_batch_config_str self p) w)) /\
    events_of (__call__ os self p) w =
      ECreate name :: events_of (get_batch_config_str self p) w ++
      fst (after_render os name (tmpdir w)
             (result_of (get_batch_config_str self p) w)) ++ [EUnlink name].
Proof.
  intros Hin.
  destruct (call_events os w self p)
    as [(e & _ & _ & _ & Hnil)
       |(name & r & evs & Hfree & Hname & -> & -> & _ & _ & _ & Hres & Hall)].
  { by rewrite Hnil in Hin. }
  assert (Htail : In (ESpawn cmd config pr)
            (fst (after_render os name (tmpdir w)
                    (result_of (get_batch_config_str self p) w)))).
  { rewrite Hall in Hin. apply in_call_events in Hin as [[=]|[Hin|[Hin|[=]]]]; [|done].
    pose proof (render_events_stage w self p) as Hst.
    by apply (proj1 (List.Forall_forall _ _) Hst) in Hin as [_ [=]]. }
  exists name. repeat split; try done.
  rewrite Hall. unfold closing. by rewrite (spawn_no_leak _ _ _ _ _ _ _ Htail).
Qed.

(** X2.  A call returns normally exactly when it started [sbebatch] and
    [sbebatch] exited with status 0. *)
Theorem call_returns_iff_exit_zero os w self p :
  result_of (__call__ os self p) w = Return tt <->
  exists cmd config, In (ESpawn cmd config (Exited 0)) (events_of (__call__ os self p) w).
Proof.
  split.
  - intros Hret.
    destruct (call_events os w self p)
      as [(e & _ & Hres & _)
         |(name & r & evs & _ & _ & _ & _ & _ & _ & _ & Hres & Hall)];
      [congruence|].
    rewrite Hres in Hret. rewrite Hall. clear Hres Hall.
    unfold after_render in *. destruct r as [text|e]; [|done].
    destruct (write_error os name text); [done|].
    destruct (flush_error os name text).
    { destruct (String.eqb text ""); [done|].
      by destruct (close_error os name text). }
    simpl in *.
    destruct (run_process os ["sbebatch"; name] (<[name:=text]> (tmpdir w)))
      as [returncode|e]; [|done].
    destruct (returncode =? 0)%Z eqn:Hzero; [|done].
    apply Z.eqb_eq in Hzero as ->.
    exists ["sbebatch"; name], (Some text).
    right. apply in_or_app. right. simpl. by do 2 right; left.
  - intros (cmd & config & Hin).
    destruct (in_call_spawn _ _ _ _ _ _ _ Hin) as (name & _ & _ & Htail & -> & _).
    by destruct (after_render_spawns _ _ _ _ _ _ _ Htail) as (_ & text & _ & _ & _ & _ & _ & _ & ->).
Qed.

(** X3.  Whenever a call starts the child, it does so with the command
    [sbebatch <file>], on a file that holds the rendered text and nothing
    else, written and flushed just before; the whole log of the call is
    creation, stage calls, write, flush, child, removal; and the call ends as
    the child did: an exception when it could not be started, a
    [CalledProcessError] on a status other than 0. *)
Theorem call_gives_child_rendered_text os w self p cmd config pr :
  In (ESpawn cmd config pr) (events_of (__call__ os self p) w) ->
  exists name text,
    cmd = ["sbebatch"; name] /\
    config = Some text /\
    result_of (get_batch_config_str self p) w = Return text /\
    pr = run_process os cmd (<[name := text]> (tmpdir w)) /\
    events_of (__call__ os self p) w =
      ECreate name :: events_of (get_batch_config_str self p) w ++
      [EWrite name text None; EFlush name None; ESpawn cmd config pr; EUnlink name] /\
    result_of (__call__ os self p) w =
      match pr with
      | NotStarted e => Raise e
      | Exited returncode =>
          if (returncode =? 0)%Z then Return tt
          else Raise (CalledProcessError returncode cmd)
      end.
Proof.
  intros Hin.
  destruct (in_call_spawn _ _ _ _ _ _ _ Hin) as (name & _ & _ & Htail & Hres & Hall).
  destruct (after_render_spawns _ _ _ _ _ _ _ Htail)
    as (_ & text & Hr & -> & -> & Hpr & _ & _ & Hend).
  exists name, text. repeat split; try done.
  - rewrite Hall. f_equal. f_equal. rewrite Hr in *. clear Hres Hend Hall.
    unfold after_render in *.
    destruct (write_error os name text); [by destruct Htail as [[=]|[]]|].
    destruct (flush_error os name text).
    { destruct (String.eqb text ""); [by destruct Htail as [[=]|[[=]|[]]]|].
      destruct (close_error os name text); by destruct Htail as [[=]|[[=]|[[=]|[]]]]. }
    simpl. by rewrite <- Hpr.
  - by rewrite Hres, Hend.
Qed.

Lemma call_gives_child_rendered_text_witness :
  result_of (__call__ no_sbebatch_os 0 "raw*.hex") (list_world [stageA; stageB]) =
    Raise (FileNotFoundError "sbebatch").
Proof.
  destruct (call_gives_child_rendered_text no_sbebatch_os (list_world [stageA; stageB]) 0
              "raw*.hex" ["sbebatch"; "tmpk3x9q2.txt"]
              (Some "@ Generated by the seabird-processing Python package
stageA -i raw*.hex
stageB -i out_a.cnv") (NotStarted (FileNotFoundError "sbebatch")))
    as (name & text & _ & _ & _ & _ & _ & Hres).
  - vm_compute. do 7 right. left. reflexivity.
  - exact Hres.
Defined.

Lemma after_render_one_spawn os name base r :
  length (List.filter is_spawn (fst (after_render os name base r))) <= 1.
Proof.
  unfold after_render. destruct r as [text|e]; [|simpl; lia].
  destruct (write_error os name text); [simpl; lia|].
  destruct (flush_error os name text); [|simpl; lia].
  destruct (String.eqb text ""); [simpl; lia|].
  destruct (close_error os name text); simpl; lia.
Qed.

Lemma after_render_failed_write os name base r name' text e :
  In (EWrite name' text (Some e)) (fst (after_render os name base r)) ->
  snd (after_render os name base r) = Raise e /\
  List.filter is_spawn (fst (after_render os name base r)) = [].
Proof.
  unfold after_render. destruct r as [text'|e']; [|done].
  destruct (write_error os name text'); [by intros [[= <- <- <-]|[]]|].
  destruct (flush_error os name text').
  - destruct (String.eqb text' ""); [by intros [[=]|[[=]|[]]]|].
    destruct (close_error os name text'); by intros [[=]|[[=]|[[=]|[]]]].
  - by intros [[=]|[[=]|[[=]|[]]]].
Qed.

Lemma after_render_failed_flush os name base r name' e :
  In (EFlush name' (Some e)) (fst (after_render os name base r)) ->
  (exists e', snd (after_render os name base r) = Raise e') /\
  List.filter is_spawn (fst (after_render os name base r)) = [].
Proof.
  unfold after_render. destruct r as [text'|e']; [|done].
  destruct (write_error os name text'); [by intros [[=]|[]]|].
  destruct (flush_error os name text').
  - destruct (String.eqb text' ""); [by eauto|].
    destruct (close_error os name text'); by eauto.
  - by intros [[=]|[[=]|[[=]|[]]]].
Qed.

Lemma in_call_file_event os w self p (ev : event) :
  stage_index ev = None -> (forall n, ev <> ECreate n) -> (forall n, ev <> EUnlink n) ->
  In ev (events_of (__call__ os self p) w) ->
  exists name,
    In ev (fst (after_render os name (tmpdir w)
                  (result_of (get_batch_config_str self p) w))) /\
    result_of (__call__ os self p) w =
      snd (after_render os name (tmpdir w)
             (result_of (get_batch_config_str self p) w)) /\
    List.filter is_spawn (events_of (__call__ os self p) w) =
      List.filter is_spawn
        (fst (after_render os name (tmpdir w)
                (result_of (get_batch_config_str self p) w))).
Proof.
  intros Hnot Hc Hu Hin.
  destruct (call_events os w self p)
    as [(e & _ & _ & _ & Hnil)
       |(name & r & evs & _ & _ & -> & -> & _ & _ & _ & Hres & Hall)].
  { by rewrite Hnil in Hin. }
  pose proof (render_events_stage w self p) as Hst.
  exists name. rewrite Hall, filter_spawn_call_events, (stage_events_no_spawn _ Hst).
  split; [|done].
  rewrite Hall in Hin. apply in_call_events in Hin as [->|[Hin|[Hin| ->]]].
  - by destruct (Hc name).
  - apply (proj1 (List.Forall_forall _ _) Hst) in Hin as [[i Hi] _]. congruence.
  - done.
  - by destruct (Hu name).
Qed.

(** X4.  A call never starts the child twice, and never starts it on a file
    it could not fill: after a write or a flush that failed, or a render that
    raised, the log holds no child, and the call raises. *)
Theorem call_never_runs_on_unwritten_file os w self p :
  length (List.filter is_spawn (events_of (__call__ os self p) w)) <= 1 /\
  (forall name text e,
     In (EWrite name text (Some e)) (events_of (__call__ os self p) w) ->
     result_of (__call__ os self p) w = Raise e /\
     List.filter is_spawn (events_of (__call__ os self p) w) = []) /\
  (forall name e,
     In (EFlush name (Some e)) (events_of (__call__ os self p) w) ->
     (exists e', result_of (__call__ os self p) w = Raise e') /\
     List.filter is_spawn (events_of (__call__ os self p) w) = []) /\
  (forall e,
     result_of (get_batch_config_str self p) w = Raise e ->
     List.filter is_spawn (events_of (__call__ os self p) w) = []).
Proof.
  split; [|split; [|split]].
  - destruct (call_events os w self p)
      as [(e & _ & _ & _ & ->)
         |(name & r & evs & _ & _ & -> & -> & _ & _ & _ & _ & ->)]; [simpl; lia|].
    rewrite filter_spawn_call_events,
      (stage_events_no_spawn _ (render_events_stage w self p)).
    apply after_render_one_spawn.
  - intros name text e Hin.
    destruct (in_call_file_event os w self p (EWrite name text (Some e)) eq_refl
                ltac:(done) ltac:(done) Hin) as (name' & Htail & -> & ->).
    by apply after_render_failed_write in Htail.
  - intros name e Hin.
    destruct (in_call_file_event os w self p (EFlush name (Some e)) eq_refl
                ltac:(done) ltac:(done) Hin) as (name' & Htail & -> & ->).
    by apply after_render_failed_flush in Htail.
  - intros e Hraise.
    destruct (call_events os w self p)
      as [(e' & _ & _ & _ & ->)
         |(name & r & evs & _ & _ & -> & -> & _ & _ & _ & _ & ->)]; [done|].
    rewrite filter_spawn_call_events,
      (stage_events_no_spawn _ (render_events_stage w self p)).
    by rewrite Hraise.
Qed.

Lemma call_never_runs_on_unwritten_file_witness :
  List.filter is_spawn
    (events_of (__call__ full_disk_os 0 "raw*.hex") (list_world [stageA; stageB])) = [] /\
  exists e',
    result_of (__call__ full_disk_os 0 "raw*.hex") (list_world [stageA; stageB]) =
      Raise e'.
Proof.
  destruct (call_never_runs_on_unwritten_file full_disk_os
              (list_world [stageA; stageB]) 0 "raw*.hex") as (_ & _ & Hflush & _).
  destruct (Hflush "tmpk3x9q2.txt" (OSError "No space left on device"))
    as [Hres Hnone].
  - vm_compute. do 6 right. left. reflexivity.
  - split; [exact Hnone|exact Hres].
Defined.

(** ** The lines of the rendered text *)

Lemma lines_cons (text : string) : exists line more, lines text = line :: more.
Proof. apply split_on_cons. Qed.

(** Splitting a joined text gives the lines of each item, in order. *)
Lemma lines_join_flat (x : string) (rest : list string) :
  lines (join nl (x :: rest)) = flat_map lines (x :: rest).
Proof.
  revert x. induction rest as [|y rest IH]; intros x.
  - simpl. by rewrite app_nil_r.
  - rewrite join_cons.
    change (x +:+ nl +:+ join nl (y :: rest))
      with (x +:+ String newline (join nl (y :: rest))).
    unfold lines at 1. rewrite split_on_sep_app.
    change (split_on newline (join nl (y :: rest))) with (lines (join nl (y :: rest))).
    by rewrite IH.
Qed.

Lemma flat_map_lines_length (items : list string) :
  length items <= length (flat_map lines items).
Proof.
  induction items as [|x items IH]; simpl; [lia|].
  destruct (lines_cons x) as (line & more & ->). rewrite length_app. simpl. lia.
Qed.

(** X5.  Whatever the exec strings hold, the text that render returns
    starts with the header line, and its lines are the header followed by
    the lines of each exec string, in the order of the stages: at least one
    line per stage, and more when an exec string spans several lines. *)
Theorem render_lines_in_general w self items p text :
  pipeline_of w self items ->
  result_of (get_batch_config_str self p) w = Return text ->
  lines text =
    config_header_comment ::
    flat_map lines (exec_strings (events_of (get_batch_config_str self p) w)) /\
  head (lines text) = Some config_header_comment /\
  S (length items) <= length (lines text).
Proof.
  intros Hp Htext. destruct (render_events w self items p Hp) as [Hevs Hres].
  rewrite Hres in Htext. unfold render_result in Htext. rewrite Hevs.
  destruct (loop_result (chain items 0 p)) as [[ls final]|e] eqn:Hloop; [|done].
  destruct (chain_returns _ _ _ _ _ Hloop) as (Hls & Hlen & _).
  assert (text = join nl (config_header_comment :: ls)) as -> by congruence.
  rewrite <- Hls, lines_join_flat.
  change (flat_map lines (config_header_comment :: ls))
    with (lines config_header_comment ++ flat_map lines ls).
  change (lines config_header_comment) with [config_header_comment].
  repeat split. simpl. pose proof (flat_map_lines_length ls). lia.
Qed.

Lemma render_lines_in_general_witness :
  lines "@ Generated by the seabird-processing Python package
datcnv /icast.hex
/s" =
    [config_header_comment; "datcnv /icast.hex"; "/s"].
Proof.
  apply (render_lines_in_general (list_world [two_line_stage]) 0 [two_line_stage]
           "cast.hex").
  - apply list_world_pipeline.
  - reflexivity.
Defined.

(** ** Longer pipelines *)

Lemma chain_app l1 l2 : forall i input,
  loop_events (chain (l1 ++ l2) i input) =
    loop_events (chain l1 i input) ++
    match loop_result (chain l1 i input) with
    | Return (_, final) => loop_events (chain l2 (i + length l1) final)
    | Raise _ => []
    end /\
  loop_result (chain (l1 ++ l2) i input) =
    match loop_result (chain l1 i input) with
    | Return (ls, final) =>
        match loop_result (chain l2 (i + length l1) final) with
        | Return (ls2, final2) => Return (ls ++ ls2, final2)
        | Raise e => Raise e
        end
    | Raise e => Raise e
    end.
Proof.
  induction l1 as [|config rest IH]; intros i input; simpl.
  - rewrite Nat.add_0_r.
    by destruct (loop_result (chain l2 i input)) as [[ls2 final2]|e].
  - destruct (get_exec_str config input true) as [line|e]; [|done].
    destruct (output_file_path config input) as [out|e]; [|done]. simpl.
    destruct (IH (S i) (Path_name out)) as [-> ->].
    replace (S i + length rest) with (i + S (length rest)) by lia.
    destruct (loop_result (chain rest (S i) (Path_name out))) as [[ls final]|e];
      [|done].
    split; [done|].
    by destruct (loop_result (chain l2 (i + S (length rest)) final)) as [[ls2 final2]|e].
Qed.

Lemma exec_strings_app (evs1 evs2 : list event) :
  exec_strings (evs1 ++ evs2) = exec_strings evs1 ++ exec_strings evs2.
Proof.
  induction evs1 as [|ev evs1 IH]; [done|].
  destruct ev as [i inp bm [line|e]|i inp r|n|n t r|n r|c cfg r|n]; simpl;
    by rewrite IH.
Qed.

Lemma chain_index_ge items i input :
  Forall (fun ev => exists j, stage_index ev = Some j /\ i <= j)
         (loop_events (chain items i input)).
Proof.
  apply List.Forall_forall. intros ev Hin.
  destruct (proj1 (List.Forall_forall _ _) (chain_stage_events items i input) ev Hin)
    as [[j Hj] _].
  exists j. split; [done|].
  by apply (threaded_index_ge _ _ _ (chain_threaded items i input) ev).
Qed.

(** X6.  Stages added at the end of a pipeline change nothing of what
    is done with the stages before them: the longer pipeline makes the calls
    of the shorter one first, then calls of the added stages only; it fails
    as the shorter one when the shorter one fails; and when it returns, so
    does the shorter one, and its exec strings are those of the shorter one
    followed by those of the added stages. *)
Theorem render_extends_shorter_pipeline w1 self1 w2 self2 l1 l2 p :
  pipeline_of w1 self1 l1 ->
  pipeline_of w2 self2 (l1 ++ l2) ->
  exists more,
    events_of (get_batch_config_str self2 p) w2 =
      events_of (get_batch_config_str self1 p) w1 ++ more /\
    Forall (fun ev => exists j, stage_index ev = Some j /\ length l1 <= j) more /\
    (forall e, result_of (get_batch_config_str self1 p) w1 = Raise e ->
       more = [] /\ result_of (get_batch_config_str self2 p) w2 = Raise e) /\
    (forall text2, result_of (get_batch_config_str self2 p) w2 = Return text2 ->
       result_of (get_batch_config_str self1 p) w1 =
         Return (join nl (config_header_comment ::
                          exec_strings (events_of (get_batch_config_str self1 p) w1))) /\
       text2 = join nl (config_header_comment ::
                        exec_strings (events_of (get_batch_config_str self1 p) w1) ++
                        exec_strings more)).
Proof.
  intros Hp1 Hp2.
  destruct (render_events w1 self1 l1 p Hp1) as [-> ->].
  destruct (render_events w2 self2 (l1 ++ l2) p Hp2) as [-> ->].
  unfold render_result. destruct (chain_app l1 l2 0 p) as [-> ->]. simpl.
  destruct (loop_result (chain l1 0 p)) as [[ls final]|e] eqn:Hl1.
  - exists (loop_events (chain l2 (length l1) final)).
    split; [done|]. split; [apply chain_index_ge|]. split; [done|].
    intros text2 Htext.
    destruct (loop_result (chain l2 (length l1) final)) as [[ls2 final2]|e] eqn:Hl2;
      [|done].
    destruct (chain_returns _ _ _ _ _ Hl1) as (<- & _).
    destruct (chain_returns _ _ _ _ _ Hl2) as (<- & _).
    split; [done|]. congruence.
  - exists []. split; [done|]. split; [constructor|]. split; [|done].
    by intros e' [= <-].
Qed.

Lemma render_extends_shorter_pipeline_witness :
  exists more,
    events_of (get_batch_config_str 0 "raw*.hex") (list_world ([stageA] ++ [stageB])) =
      events_of (get_batch_config_str 0 "raw*.hex") (iterator_world [stageA]) ++ more /\
    Forall (fun ev => exists j, stage_index ev = Some j /\ length [stageA] <= j) more.
Proof.
  destruct (render_extends_shorter_pipeline
              (iterator_world [stageA]) 0 (list_world ([stageA] ++ [stageB])) 0
              [stageA] [stageB] "raw*.hex"
              (iterator_world_pipeline [stageA])
              (list_world_pipeline ([stageA] ++ [stageB])))
    as (more & Hevs & Hmore & _).
  exists more. split; [exact Hevs|exact Hmore].
Defined.

(** ** One-shot iterators *)

Lemma chain_consumed_exec items : forall i input,
  loop_consumed (chain items i input) =
    length (List.filter is_exec (loop_events (chain items i input))).
Proof.
  induction items as [|config rest IH]; intros i input; simpl; [done|].
  destruct (get_exec_str config input true) as [line|e]; [|done].
  destruct (output_file_path config input) as [out|e]; [|done].
  simpl. by rewrite IH.
Qed.

Lemma render_iterator_heap w self stages items p :
  heap w !! self = Some (BatchObj stages) ->
  heap w !! stages = Some (IterObj items) ->
  heap (world_after (get_batch_config_str self p) w) =
    <[stages := IterObj (drop (length (List.filter is_exec
                                 (events_of (get_batch_config_str self p) w))) items)]>
      (heap w).
Proof.
  intros Hself Hstages. unfold events_of, world_after.
  rewrite (render_iterator w self stages items p Hself Hstages). simpl.
  by rewrite events_since_app, chain_consumed_exec.
Qed.

Lemma render_consumes_iterator_left w self stages items p :
  heap w !! self = Some (BatchObj stages) ->
  heap w !! stages = Some (IterObj items) ->
  exists stages',
    heap (world_after (get_batch_config_str self p) w) !! self = Some (BatchObj stages') /\
    heap (world_after (get_batch_config_str self p) w) !! stages' =
      Some (IterObj (drop (length (List.filter is_exec
                             (events_of (get_batch_config_str self p) w))) items)).
Proof.
  intros Hself Hstages. exists stages.
  rewrite (render_iterator_heap w self stages items p Hself Hstages). split.
  - rewrite lookup_insert_ne; [done|]. intros ->. congruence.
  - apply lookup_insert_eq.
Qed.

(** X7.  A render takes from a one-shot iterator one stage for each exec
    string it asks for, and the stages are gone for every [Batch] built on
    that iterator, this one and any other: each is left with the stages after
    the last one asked.  When the render returned, nothing is left, and a
    render through any of them returns the header alone. *)
Theorem render_consumes_shared_iterator w self other stages items p :
  heap w !! self = Some (BatchObj stages) ->
  heap w !! other = Some (BatchObj stages) ->
  heap w !! stages = Some (IterObj items) ->
  iterator_pipeline (world_after (get_batch_config_str self p) w) other
    (drop (length (List.filter is_exec (events_of (get_batch_config_str self p) w)))
          items) /\
  (forall text, result_of (get_batch_config_str self p) w = Return text ->
     iterator_pipeline (world_after (get_batch_config_str self p) w) other [] /\
     forall q,
       result_of (get_batch_config_str other q)
                 (world_after (get_batch_config_str self p) w) =
         Return config_header_comment).
Proof.
  intros Hself Hother Hstages.
  pose proof (render_iterator_heap w self stages items p Hself Hstages) as Hheap.
  assert (Hleft : iterator_pipeline (world_after (get_batch_config_str self p) w) other
            (drop (length (List.filter is_exec
                     (events_of (get_batch_config_str self p) w))) items)).
  { exists stages. rewrite Hheap. split.
    - rewrite lookup_insert_ne; [done|]. intros ->. congruence.
    - apply lookup_insert_eq. }
  split; [exact Hleft|]. intros text Htext.
  assert (Hp : pipeline_of w self items) by (right; by exists stages).
  destruct (render_events w self items p Hp) as [Hevs Hres].
  rewrite Hres in Htext. unfold render_result in Htext.
  destruct (loop_result (chain items 0 p)) as [[ls final]|e] eqn:Hloop; [|done].
  destruct (chain_returns _ _ _ _ _ Hloop) as (_ & _ & Hcons & _).
  rewrite Hevs, <- chain_consumed_exec, Hcons, drop_all in Hleft.
  split; [exact Hleft|]. intros q.
  by destruct (render_events _ other [] q (or_intror Hleft)) as [_ ->].
Qed.

Lemma render_consumes_shared_iterator_witness :
  result_of (get_batch_config_str 2 "other.hex")
            (world_after (get_batch_config_str 0 "raw*.hex")
                         (shared_iterator_world [stageA; stageB])) =
    Return config_header_comment.
Proof.
  destruct (render_consumes_shared_iterator (shared_iterator_world [stageA; stageB])
              0 2 1 [stageA; stageB] "raw*.hex") as [_ Hdrained].
  - reflexivity.
  - reflexivity.
  - reflexivity.
  - destruct (Hdrained "@ Generated by the seabird-processing Python package
stageA -i raw*.hex
stageB -i out_a.cnv") as [_ Hheader].
    + reflexivity.
    + apply Hheader.
Defined.

Lemma file_events_no_exec (evs : list event) :
  Forall file_event_only evs -> List.filter is_exec evs = [].
Proof.
  induction 1 as [|ev evs (_ & Hi & _) _ IH]; [done|].
  destruct ev; simpl in *; try done.
Qed.

Lemma call_exec_events os w self p :
  List.filter is_exec (events_of (__call__ os self p) w) = [] /\
    world_after (__call__ os self p) w = w \/
  List.filter is_exec (events_of (__call__ os self p) w) =
    List.filter is_exec (events_of (get_batch_config_str self p) w) /\
    heap (world_after (__call__ os self p) w) =
      heap (world_after (get_batch_config_str self p) w) /\
    exists name, result_of (NamedTemporaryFile os ".txt") w = Return name.
Proof.
  destruct (call_events os w self p)
    as [(e & _ & _ & Hw & ->)
       |(name & r & evs & _ & Hname & -> & -> & Hh & _ & _ & _ & ->)].
  - by left.
  - right. split; [|split; [done|by exists name]].
    simpl. rewrite !List.filter_app.
    rewrite (file_events_no_exec _ (after_render_events os name (tmpdir w) _)).
    unfold closing. destruct (leaks os name _); simpl; by rewrite app_nil_r.
Qed.

(** X8.  A call takes from a one-shot iterator what its render takes,
    whether or not the child is started afterwards: once the temporary file
    is created and the stages have all answered, nothing is left, also when
    the write or the flush then fails.  So after a call that started the
    child, a render returns the header alone, and a second call can only
    start the child on a file that holds the header and nothing else. *)
Theorem call_consumes_iterator os w self items p :
  iterator_pipeline w self items ->
  iterator_pipeline (world_after (__call__ os self p) w) self
    (drop (length (List.filter is_exec (events_of (__call__ os self p) w))) items) /\
  (forall name text,
     result_of (NamedTemporaryFile os ".txt") w = Return name ->
     result_of (get_batch_config_str self p) w = Return text ->
     iterator_pipeline (world_after (__call__ os self p) w) self []) /\
  (forall cmd config pr,
     In (ESpawn cmd config pr) (events_of (__call__ os self p) w) ->
     iterator_pipeline (world_after (__call__ os self p) w) self [] /\
     forall os' q cmd' config' pr',
       In (ESpawn cmd' config' pr')
          (events_of (__call__ os' self q) (world_after (__call__ os self p) w)) ->
       config' = Some config_header_comment).
Proof.
  intros (stages & Hself & Hstages).
  assert (Hother : forall w', heap w' = heap (world_after (get_batch_config_str self p) w) ->
            forall k, k = length (List.filter is_exec
                                    (events_of (get_batch_config_str self p) w)) ->
            iterator_pipeline w' self (drop k items)).
  { intros w' Hw' k ->. unfold iterator_pipeline. rewrite Hw'.
    by apply (render_consumes_iterator_left w self stages items p). }
  assert (Hall : forall text,
            result_of (get_batch_config_str self p) w = Return text ->
            length (List.filter is_exec (events_of (get_batch_config_str self p) w)) =
              length items).
  { intros text Htext.
    assert (Hp : pipeline_of w self items) by (right; by exists stages).
    destruct (render_events w self items p Hp) as [Hevs Hres].
    rewrite Hres in Htext. unfold render_result in Htext.
    destruct (loop_result (chain items 0 p)) as [[ls final]|e] eqn:Hloop; [|done].
    destruct (chain_returns _ _ _ _ _ Hloop) as (_ & _ & Hcons & _).
    by rewrite Hevs, <- chain_consumed_exec. }
  assert (Hcreated : forall name text,
            result_of (NamedTemporaryFile os ".txt") w = Return name ->
            result_of (get_batch_config_str self p) w = Return text ->
            iterator_pipeline (world_after (__call__ os self p) w) self []).
  { intros name text Hname Htext.
    destruct (call_exec_events os w self p) as [[_ Hw]|(_ & Hheap & _)].
    - exfalso.
      destruct (call_events os w self p)
        as [(e & Hfail & _)|(n & r & evs & _ & _ & _ & _ & _ & _ & _ & _ & Hevs)];
        [congruence|].
      pose proof (f_equal (fun w' => events_since w w') Hw) as Hnil.
      simpl in Hnil. fold (events_of (__call__ os self p) w) in Hnil.
      by rewrite events_since_same, Hevs in Hnil.
    - rewrite <- (drop_all items), <- (Hall text Htext). by apply Hother. }
  split; [|split; [exact Hcreated|]].
  - destruct (call_exec_events os w self p) as [[-> ->]|(-> & Hheap & _)].
    + by exists stages.
    + by apply Hother.
  - intros cmd config pr Hin.
    destruct (in_call_spawn _ _ _ _ _ _ _ Hin) as (name & Hname & _ & Htail & _).
    destruct (after_render_spawns _ _ _ _ _ _ _ Htail) as (_ & text & Htext & _).
    pose proof (Hcreated name text Hname Htext) as Hempty.
    split; [exact Hempty|].
    intros os' q cmd' config' pr' Hin'.
    destruct (in_call_spawn _ _ _ _ _ _ _ Hin') as (name' & _ & _ & Htail' & _).
    destruct (after_render_spawns _ _ _ _ _ _ _ Htail')
      as (_ & text' & Htext' & _ & -> & _).
    destruct (render_events _ self [] q (or_intror Hempty)) as [_ Hres].
    rewrite Hres in Htext'. by injection Htext' as <-.
Qed.

Lemma call_consumes_iterator_witness :
  iterator_pipeline
    (world_after (__call__ (plain_os 3) 0 "raw*.hex") (iterator_world [stageA; stageB]))
    0 [].
Proof.
  destruct (call_consumes_iterator (plain_os 3) (iterator_world [stageA; stageB]) 0
              [stageA; stageB] "raw*.hex") as (_ & _ & Hspawn).
  - exists 1. split; reflexivity.
  - destruct (Hspawn ["sbebatch"; "tmpk3x9q2.txt"]
                (Some "@ Generated by the seabird-processing Python package
stageA -i raw*.hex
stageB -i out_a.cnv") (Exited 3)) as [Hempty _].
    + vm_compute. do 7 right. left. reflexivity.
    + exact Hempty.
Defined.

(** ** What is threaded to the next stage *)

(** X9.  Only the last component of the path a stage declares reaches the
    next stage, unchecked: a directory in front of a plain name is dropped, a
    plain name is passed as it is, and a path without a last component (the
    empty path, ["."], ["/"], ["./"]) makes both methods of the next stage be
    called with the empty text. *)
Theorem render_threads_leaf_unchecked w self p i inp out ev inp' :
  In (EOut i inp (Return out)) (events_of (get_batch_config_str self p) w) ->
  In ev (events_of (get_batch_config_str self p) w) ->
  stage_index ev = Some (S i) ->
  stage_input ev = Some inp' ->
  (path_tail out = [] -> inp' = "") /\
  (forall dir leaf,
     out = dir +:+ String slash leaf ->
     kept_component leaf = true -> occurs slash leaf = false -> inp' = leaf) /\
  (kept_component out = true -> occurs slash out = false -> inp' = out).
Proof.
  intros Hout Hev Hi Hinp.
  pose proof (render_events_threaded w self p) as Hth.
  destruct (threaded_fed _ _ _ Hth ev (S i) inp' Hev Hi Hinp)
    as [[[=] _]|(k & inp0 & line & out0 & [= <-] & _ & _ & Hout0 & ->)].
  destruct (threaded_out_once _ _ _ Hth _ _ _ _ _ Hout Hout0) as [_ [= <-]].
  split; [|split].
  - intros Hnone. unfold Path_name. by rewrite Hnone.
  - intros dir leaf -> Hkept Hleaf. by apply Path_name_leaf.
  - by apply Path_name_plain.
Qed.

Lemma render_threads_leaf_unchecked_witness :
  In (EOut 0 "raw*.hex" (Return "./"))
     (events_of (get_batch_config_str 0 "raw*.hex")
                (list_world [dot_output_stage; stageB])) /\
  In (EExec 1 "" true (Return "stageB -i "))
     (events_of (get_batch_config_str 0 "raw*.hex")
                (list_world [dot_output_stage; stageB])) /\
  Path_name "./" = "".
Proof.
  assert (Hout : In (EOut 0 "raw*.hex" (Return "./"))
                    (events_of (get_batch_config_str 0 "raw*.hex")
                               (list_world [dot_output_stage; stageB]))).
  { vm_compute. right. left. reflexivity. }
  assert (Hexec : In (EExec 1 (Path_name "./") true (Return "stageB -i "))
                     (events_of (get_batch_config_str 0 "raw*.hex")
                                (list_world [dot_output_stage; stageB]))).
  { vm_compute. do 2 right. left. reflexivity. }
  split; [exact Hout|]. split; [exact Hexec|].
  apply (proj1 (render_threads_leaf_unchecked (list_world [dot_output_stage; stageB]) 0
                  "raw*.hex" 0 "raw*.hex" "./"
                  (EExec 1 (Path_name "./") true (Return "stageB -i "))
                  (Path_name "./") Hout Hexec eq_refl eq_refl)).
  reflexivity.
Defined.

(** ** A [Batch] given where a collection is expected *)

(** X10.  The constructor checks nothing: built on another [Batch], which
    the class gives no way to iterate, the [Batch] is made all the same.  The
    error comes with the first render, a [TypeError] raised before any stage
    is called and with the store untouched; a call raises it too, after it
    has created its temporary file and before it removes it, with nothing
    written and no child started. *)
Theorem batch_built_on_batch os w0 self stages inner p :
  stages <> self ->
  heap w0 !! stages = Some (BatchObj inner) ->
  result_of (__init__ self stages) w0 = Return tt /\
  heap (world_after (__init__ self stages) w0) !! self = Some (BatchObj stages) /\
  (exists what,
     result_of (get_batch_config_str self p) (world_after (__init__ self stages) w0) =
       Raise (TypeError what) /\
     world_after (get_batch_config_str self p) (world_after (__init__ self stages) w0) =
       world_after (__init__ self stages) w0 /\
     forall name,
       result_of (NamedTemporaryFile os ".txt") (world_after (__init__ self stages) w0) =
         Return name ->
       result_of (__call__ os self p) (world_after (__init__ self stages) w0) =
         Raise (TypeError what) /\
       events_of (__call__ os self p) (world_after (__init__ self stages) w0) =
         [ECreate name; EUnlink name]).
Proof.
  intros Hne Hbatch.
  destruct (init_refers_to_stages w0 self stages) as [Hself Hother].
  split; [done|]. split; [exact Hself|].
  set (w := world_after (__init__ self stages) w0) in *.
  assert (Hnone : forall items, ~ pipeline_of w self items).
  { intros items [(s & Hs & Hs')|(s & Hs & Hs')];
      rewrite Hself in Hs; injection Hs as <-; rewrite Hother in Hs' by done;
      congruence. }
  destruct (render_not_a_pipeline w self p Hnone) as [what Heq].
  exists what. unfold result_of at 1, world_after at 1. rewrite Heq.
  split; [done|]. split; [done|].
  intros name Hname.
  destruct (call_events os w self p)
    as [(e & Hfail & _)
       |(name' & r & evs & _ & Hname' & Hr & Hevs & _ & _ & _ & Hres & Hall)];
    [congruence|].
  assert (name' = name) as -> by congruence.
  unfold result_of at 1 in Hr. unfold events_of, world_after in Hevs.
  rewrite Heq in Hr, Hevs. simpl in Hr, Hevs. rewrite events_since_same in Hevs.
  subst r evs. by rewrite Hres, Hall.
Qed.

Lemma batch_built_on_batch_witness :
  events_of (__call__ (plain_os 0) 0 "raw*.hex") nested_world =
    [ECreate "tmpk3x9q2.txt"; EUnlink "tmpk3x9q2.txt"].
Proof.
  destruct (batch_built_on_batch (plain_os 0) (World {[ 1 := BatchObj 2 ]} ∅ ∅ [])
              0 1 2 "raw*.hex") as (_ & _ & what & _ & _ & Hcall).
  - lia.
  - reflexivity.
  - destruct (Hcall "tmpk3x9q2.txt") as [_ Hevs].
    + vm_compute. reflexivity.
    + exact Hevs.
Defined.
